(** * df-py: block sampling, reward allocation and reward dispensing

    A shallow embedding of [util/dispense.py] together with the two
    collaborators it is specified with ([util/blockrange.py] and
    [util/calcrewards.py]), and the properties of each.

    Layout: the definitions come first, one [Module] per Python module;
    the theorems follow. *)

From Stdlib Require Import Ascii String DecimalString QArith Qabs Qround Lqa.
From stdpp Require Import base list gmap strings sorting.

Local Open Scope Z_scope.

(** ** Results of fallible calls

    A Python call either returns a value or raises; [result E A] is the
    outcome, and [try x := r in k] sequences two calls, the second one
    skipped when the first one raises. *)

Inductive result (E A : Type) : Type :=
  | Ok (a : A)
  | Raise (e : E).
Arguments Ok {E A} a.
Arguments Raise {E A} e.

Definition rbind {E A B} (r : result E A) (k : A → result E B) : result E B :=
  match r with
  | Ok a => k a
  | Raise e => Raise e
  end.

Notation "'try' x := r 'in' k" := (rbind r (λ x, k))
  (at level 10, x pattern, r at level 100, k at level 200, only parsing).

(** ** util/blockrange.py

    The module itself is not among the sources; its tests are.  What
    follows is its specification made executable. *)

Module BlockRange.

(** Modelled from the spec: the two validation failures of the constructor
    of [BlockRange], which is missing from the sources. *)
Inductive error : Type :=
  | InvalidRangeError
  | InvalidArgumentError.

(** Modelled from the spec: the randomness source that [getBlocks], missing
    from the sources, draws from: an unbounded supply of draws and the
    number of draws consumed so far.  Replacing [draws] fixes the seed. *)
Record Rng : Type := mkRng { draws : nat → nat; consumed : nat }.

(** Modelled from the spec: one draw of the source, reduced to an index
    below [n]. *)
Definition randbelow (n : nat) (g : Rng) : nat * Rng :=
  ((draws g (consumed g) `mod` n)%nat, mkRng (draws g) (S (consumed g))).

(** A source with a fixed seed, for the examples. *)
Definition seeded (seed : nat) : Rng :=
  mkRng (λ i, (seed + 7 * i * i + 3 * i)%nat) 0.

(** Modelled from the spec: the data of a [BlockRange], a class missing from
    the sources; [BlockRange(st, fin, num_samples)] in the tests. *)
Record t : Type := mk { st : Z; fin : Z; num_samples : Z }.

(** Modelled from the spec: the constructor of [BlockRange], which is
    missing from the sources.  Negative arguments are an
    [InvalidArgumentError], an interval that ends before it starts is an
    [InvalidRangeError]; the argument check comes first, which is what
    makes [BlockRange(1, -1, 5)] an [InvalidArgumentError]. *)
Definition new (st fin num_samples : Z) : result error t :=
  if bool_decide (st < 0 ∨ fin < 0 ∨ num_samples < 0) then
    Raise InvalidArgumentError
  else if bool_decide (fin < st) then Raise InvalidRangeError
  else Ok (mk st fin num_samples).

(** Modelled from the spec: the number of integers in the closed interval
    of a [BlockRange]. *)
Definition available (r : t) : Z := fin r - st r + 1.

(** Modelled from the spec: the random choice inside [getBlocks], missing
    from the sources: [k] draws without replacement.  Each draw picks a
    position of what is left of the pool and removes it. *)
Fixpoint choice (k : nat) (pool : list Z) (g : Rng) : list Z * Rng :=
  match k with
  | O => ([], g)
  | S k' =>
      match pool with
      | [] => ([], g)
      | _ :: _ =>
          let '(i, g1) := randbelow (length pool) g in
          let x := default 0 (pool !! i) in
          let '(xs, g2) := choice k' (delete i pool) g1 in
          (x :: xs, g2)
      end
  end.

(** Modelled from the spec: [getBlocks] of [BlockRange], missing from the
    sources.  Nothing for zero samples, the whole interval when the samples
    cover it, and otherwise a sorted random choice without replacement. *)
Definition getBlocks (r : t) (g : Rng) : list Z * Rng :=
  if bool_decide (num_samples r = 0) then ([], g)
  else if bool_decide (available r ≤ num_samples r) then
    (seqZ (st r) (available r), g)
  else
    let '(xs, g') :=
      choice (Z.to_nat (num_samples r)) (seqZ (st r) (available r)) g in
    (merge_sort Z.le xs, g').

(** Modelled from the spec: [numBlocks] of [BlockRange], missing from the
    sources: the size of the sample. *)
Definition numBlocks (r : t) : Z := Z.min (num_samples r) (available r).

(** Modelled from the spec: construction followed by sampling,
    [BlockRange(...).getBlocks()], both missing from the sources. *)
Definition sample (st fin num_samples : Z) (g : Rng)
    : result error (list Z) * Rng :=
  match new st fin num_samples with
  | Raise e => (Raise e, g)
  | Ok r => let '(bs, g') := getBlocks r g in (Ok bs, g')
  end.

(** The loop of the tests in [test_blockrange.py],
    [for _ in range(k): r = BlockRange(st, fin, num_samples).getBlocks()]:
    the results of the [k] trials, which share the randomness source. *)
Fixpoint trials (k : nat) (st fin num_samples : Z) (g : Rng)
    : list (result error (list Z)) :=
  match k with
  | O => []
  | S k' =>
      let '(r, g') := sample st fin num_samples g in
      r :: trials k' st fin num_samples g'
  end.

End BlockRange.

(** ** Python dictionaries

    A [dict] keeps its items in insertion order and holds a key once; it
    is modelled as the list of its items. *)

Abbreviation dict K V := (list (K * V)) (only parsing).

Definition keys {K V} (d : dict K V) : list K := d.*1.
Definition values {K V} (d : dict K V) : list V := d.*2.

Fixpoint dict_get {K V} `{EqDecision K} (k : K) (d : dict K V) : option V :=
  match d with
  | [] => None
  | (k', v) :: d' => if decide (k = k') then Some v else dict_get k d'
  end.

(** Sum of a list of rationals, [sum(...)] over amounts. *)
Definition Qsum (l : list Q) : Q := foldr Qplus 0%Q l.

(** ** util/calcrewards.py

    The module itself is not among the sources; a test that calls it is.
    What follows is its specification made executable, over exact
    rationals. *)

Module CalcRewards.

(** Modelled from the spec: the two failures of [calcRewards], which is
    missing from the sources. *)
Inductive error : Type :=
  | InvalidInputError
  | NoEligibleRecipientsError.

(** Modelled from the spec: the argument type of [calcRewards], missing
    from the sources: [chainID → basetoken → pool → LP → amount], the shape
    the tests walk through with four nested loops. *)
Definition snapshot : Type :=
  dict Z (dict string (dict string (dict string Q))).

(** Modelled from the spec: the result type of [calcRewards], missing from
    the sources: [chainID → LP → reward]. *)
Definition allocation : Type := dict Z (dict string Q).

(** One leaf of a snapshot with the keys that lead to it. *)
Record entry : Type := mkEntry {
  chainID : Z; basetoken : string; pool : string; LP : string; amount : Q
}.

Definition entries (s : snapshot) : list entry :=
  '(c, toks) ← s; '(b, pools) ← toks; '(p, lps) ← pools; '(a, x) ← lps;
  [mkEntry c b p a x].

(** The amount stored under the four keys, zero when there is none. *)
Definition lookup4 (s : snapshot) (c : Z) (b p a : string) : Q :=
  default 0%Q
    (toks ← dict_get c s; pools ← dict_get b toks; lps ← dict_get p pools;
     dict_get a lps).

(** Add [x] to the reward of [a] in one chain's mapping. *)
Fixpoint dict_add (a : string) (x : Q) (d : dict string Q) : dict string Q :=
  match d with
  | [] => [(a, x)]
  | (a', y) :: d' =>
      if decide (a = a') then (a', (y + x)%Q) :: d'
      else (a', y) :: dict_add a x d'
  end.

(** Add [x] to the reward of [a] on chain [c]. *)
Fixpoint alloc_add (c : Z) (a : string) (x : Q) (al : allocation)
    : allocation :=
  match al with
  | [] => [(c, [(a, x)])]
  | (c', d) :: al' =>
      if decide (c = c') then (c', dict_add a x d) :: al'
      else (c', d) :: alloc_add c a x al'
  end.

(** Sum of every reward of every chain. *)
Definition total_rewards (al : allocation) : Q :=
  Qsum ((λ cd, Qsum (values cd.2)) <$> al).


Definition Qnonneg (x : Q) : bool := Qle_bool 0 x.
Definition Qpositive (x : Q) : bool := negb (Qle_bool x 0).
Definition Qzero (x : Q) : bool := Qeq_bool x 0.

(** Modelled from the spec: the check on rates in [calcRewards], missing
    from the sources: the rate of every base token a snapshot mentions is
    there and is positive. *)
Definition rates_ok (rates : dict string Q) (s : snapshot) : bool :=
  forallb (λ e, from_option Qpositive false (dict_get (basetoken e) rates))
    (entries s).

(** Modelled from the spec: the preconditions of [calcRewards], missing
    from the sources. *)
Definition valid_input (stakes volumes : snapshot) (rates : dict string Q)
    (budget : Q) : bool :=
  forallb (λ e, Qnonneg (amount e)) (entries stakes)
  && forallb (λ e, Qnonneg (amount e)) (entries volumes)
  && rates_ok rates stakes && rates_ok rates volumes
  && Qnonneg budget.

Section Allocator.

(** The weighting policy: the weight of an address in a pool from its
    stake, its volume and the rate of the pool's base token.  The spec
    leaves the formula open. *)
Variable weight : Q → Q → Q → Q.

(** Modelled from the spec: the weight [calcRewards], missing from the
    sources, gives to a stake entry: the policy applied to its stake, to
    the volume under the same keys and to the rate of its base token. *)
Definition weight_of (volumes : snapshot) (rates : dict string Q)
    (e : entry) : Q :=
  weight (amount e)
    (lookup4 volumes (chainID e) (basetoken e) (pool e) (LP e))
    (default 0%Q (dict_get (basetoken e) rates)).

(** Modelled from the spec: the total weight in [calcRewards], missing from
    the sources: the sum over all addresses of all chains. *)
Definition totalWeight (stakes volumes : snapshot)
    (rates : dict string Q) : Q :=
  Qsum (weight_of volumes rates <$> entries stakes).

(** Modelled from the spec: the aggregation in [calcRewards], missing from
    the sources.  Every stake entry gets its share [f e], pools and base
    tokens collapsed: the result is keyed by chain and address only. *)
Definition distribute (f : entry → Q) (es : list entry) : allocation :=
  foldl (λ al e, alloc_add (chainID e) (LP e) (f e) al) [] es.

(** Modelled from the spec: [calcRewards(stakes, poolvols, rates,
    TOKEN_avail)], which is missing from the sources.
    Inputs are validated first; rewards are
    [budget * weight / totalWeight]; without any weight there is nothing
    to hand out, which is an error unless the budget is zero too. *)
Definition calcRewards (stakes volumes : snapshot)
    (rates : dict string Q) (budget : Q) : result error allocation :=
  if negb (valid_input stakes volumes rates budget) then
    Raise InvalidInputError
  else
    let total := totalWeight stakes volumes rates in
    if Qzero total then
      if Qzero budget then Ok (distribute (λ _, 0%Q) (entries stakes))
      else Raise NoEligibleRecipientsError
    else
      Ok (distribute
            (λ e, (budget * weight_of volumes rates e / total)%Q)
            (entries stakes)).

End Allocator.

(** A weighting policy for the examples: stake times volume in the
    reference currency. *)
Definition stake_times_volume (stake volume rate : Q) : Q :=
  (stake * (volume * rate))%Q.

Definition stakes1 : snapshot :=
  [(1, [("OCEAN", [("pool1", [("0xA", 10%Q); ("0xB", 30%Q)]);
                    ("pool2", [("0xA", 5%Q)])]);
        ("H2O", [("pool3", [("0xC", 7%Q)])])]);
   (137, [("OCEAN", [("pool4", [("0xA", 2%Q)])])])].

Definition volumes1 : snapshot :=
  [(1, [("OCEAN", [("pool1", [("0xA", 3%Q); ("0xB", 1%Q)]);
                    ("pool2", [("0xA", 4%Q)])]);
        ("H2O", [("pool3", [("0xC", 0%Q)])])]);
   (137, [("OCEAN", [("pool4", [("0xA", 6%Q)])])])].

Definition rates1 : dict string Q := [("OCEAN", 1 # 2); ("H2O", 1618 # 1000)]%Q.


End CalcRewards.

(** ** Text read with universal newlines

    [open(path, 'r')] without [newline=''] hands out the text with every
    line ending, [\r\n] or a lone [\r], turned into [\n]; this reaches
    the inside of quoted csv fields too. *)

Definition CR : ascii := "013"%char.
Definition LF : ascii := "010"%char.

Fixpoint universal_newlines (s : string) : string :=
  match s with
  | EmptyString => EmptyString
  | String c s' =>
      if Ascii.eqb c CR then
        match s' with
        | String c' s'' =>
            if Ascii.eqb c' LF then String LF (universal_newlines s'')
            else String LF (universal_newlines s')
        | EmptyString => String LF EmptyString
        end
      else String c (universal_newlines s')
  end.

(** Whether a string holds a carriage return. *)
Fixpoint has_cr (s : string) : bool :=
  match s with
  | EmptyString => false
  | String c s' => Ascii.eqb c CR || has_cr s'
  end.

(** ** Python floats

    The float operations the module relies on.  [float] stands for the
    finite floats, each of which denotes a rational; [float_str] is
    [str(x)] as [csv.writer] writes it, [float_of_str] is [float(s)], with
    [None] for its [ValueError].  Python prints a float with the shortest
    digits that read back as the same float, which is [float_of_str_str];
    what it prints holds digits, a point, a sign and an exponent mark, and
    no carriage return. *)

Class PyFloat : Type := {
  float : Type;
  float_str : float → string;
  float_of_str : string → option float;
  float_val : float → Q;
  float_of_str_str : ∀ x, float_of_str (float_str x) = Some x;
  float_str_no_cr : ∀ x, has_cr (float_str x) = false
}.

(** *** Decimal amounts

    An instance for the examples: amounts written with a decimal point, such
    as [123.123], kept as their digits before and after the point. *)

Definition decimal : Type := Decimal.int * Decimal.uint.

Definition decimal_str (x : decimal) : string :=
  NilEmpty.string_of_int x.1 +:+ "." +:+ NilEmpty.string_of_uint x.2.

(** Cut a string at its first point. *)
Fixpoint split_point (s : string) : option (string * string) :=
  match s with
  | EmptyString => None
  | String c s' =>
      if Ascii.eqb c "." then Some (EmptyString, s')
      else '(a, b) ← split_point s'; Some (String c a, b)
  end.

Definition decimal_of_str (s : string) : option decimal :=
  match split_point s with
  | Some (a, b) =>
      i ← NilEmpty.int_of_string a; f ← NilEmpty.uint_of_string b; Some (i, f)
  | None => i ← NilEmpty.int_of_string s; Some (i, Decimal.Nil)
  end.

(** The decimal amount a literal denotes, [0.] when it is none. *)
Definition dec (s : string) : decimal :=
  default (Decimal.Pos Decimal.Nil, Decimal.Nil) (decimal_of_str s).

Definition decimal_val (x : decimal) : Q :=
  let frac :=
    (Z.of_uint x.2 # Z.to_pos (10 ^ Z.of_nat (Decimal.nb_digits x.2)))%Q in
  match x.1 with
  | Decimal.Pos d => (inject_Z (Z.of_uint d) + frac)%Q
  | Decimal.Neg d => (- (inject_Z (Z.of_uint d) + frac))%Q
  end.

(** The nearest integer, ties to the even one: Python's [round]. *)
Definition round_half_even (q : Q) : Z :=
  let f := Qfloor q in
  match (q - inject_Z f ?= 1 # 2)%Q with
  | Lt => f
  | Eq => if Z.even f then f else f + 1
  | Gt => f + 1
  end.

(** [sum(...)] over integers. *)
Definition Zsum (l : list Z) : Z := foldr Z.add 0 l.

(** ** util/dispense.py *)

Module Dispense.

(** The exceptions the module's calls can raise. *)
Inductive exn : Type :=
  | AssertionError
  | FileNotFoundError
  | IsADirectoryError
  | IndexError
  | ValueError
  | ContractError.

(** *** Files

    A csv file is the list of its rows, a row the list of its fields:
    [csv.writer] and [csv.reader] are taken at the level of rows, on a
    POSIX system, where writing in text mode changes nothing.  What can go
    wrong inside the libraries while a file that is there is written or
    read (a field the reader finds too long, text that cannot be encoded)
    has no counterpart here: what is proved of a write followed by a read
    is stated for calls that return normally. *)
Abbreviation row := (list string) (only parsing).

Inductive node : Type :=
  | File (rows : list row)
  | Dir.

(** The file system: what is at each path, and which missing paths
    [open(path, 'w')] can create (their directory is there and may be
    written to). *)
Record filesys : Type := mkFs {
  nodes : gmap string node;
  creatable : string → bool
}.

(** [os.path.exists] *)
Definition path_exists (fs : filesys) (path : string) : bool :=
  bool_decide (is_Some (nodes fs !! path)).

(** [open(path, 'w')]: the file is created or emptied. *)
Definition open_w (fs : filesys) (path : string) : result exn filesys :=
  match nodes fs !! path with
  | Some Dir => Raise IsADirectoryError
  | Some (File _) => Ok (mkFs (<[path := File []]> (nodes fs)) (creatable fs))
  | None =>
      if creatable fs path then
        Ok (mkFs (<[path := File []]> (nodes fs)) (creatable fs))
      else Raise FileNotFoundError
  end.

(** [csv.writer(f).writerow(r)] on the file open at [path]. *)
Definition writerow (path : string) (r : row) (fs : filesys) : filesys :=
  match nodes fs !! path with
  | Some (File rows) =>
      mkFs (<[path := File (rows ++ [r])]> (nodes fs)) (creatable fs)
  | _ => fs
  end.

(** The rows of a file as a reader in text mode sees them. *)
Definition read_text (rows : list row) : list row :=
  (λ r : row, universal_newlines <$> r) <$> rows.

(** [open(path, 'r')] and [csv.reader(f)]: the rows of the file. *)
Definition open_r (fs : filesys) (path : string) : result exn (list row) :=
  match nodes fs !! path with
  | Some (File rows) => Ok (read_text rows)
  | Some Dir => Raise IsADirectoryError
  | None => Raise FileNotFoundError
  end.

(** [row[i]] *)
Definition index (r : row) (i : nat) : result exn string :=
  match r !! i with
  | Some x => Ok x
  | None => Raise IndexError
  end.

Fixpoint ends_with_sep (s : string) : bool :=
  match s with
  | EmptyString => false
  | String c EmptyString => bool_decide (c = "/"%char)
  | String _ s' => ends_with_sep s'
  end.

(** [os.path.join(path, name)] for a relative [name]. *)
Definition path_join (path name : string) : string :=
  if bool_decide (path = "") || ends_with_sep path then path +:+ name
  else path +:+ "/" +:+ name.

Definition rewardsPathToFile (path : string) : string :=
  path_join path "rewards.csv".

(** *** Contract calls

    The calls made to the chain, in the order they are made.  The chain
    may refuse any of them, which raises. *)
Inductive call : Type :=
  | AirdropAt (addr : string)
  | GetToken (airdrop : string)
  | SimpletokenAt (addr : string)
  | Approve (token spender : string) (amount : Z) (from : string)
  | Allocate (airdrop : string) (tos : list string) (values_int : list Z)
      (from : string).

Record chain : Type := mkChain {
  token_of : string → string;
  accepts : call → bool
}.

(** Make the calls one after the other; the first one refused raises and
    ends the run.  The result comes with the calls made. *)
Fixpoint run (ch : chain) (cs : list call) : result exn () * list call :=
  match cs with
  | [] => (Ok (), [])
  | c :: cs' =>
      if accepts ch c then
        let '(r, tr) := run ch cs' in (r, c :: tr)
      else (Raise ContractError, [c])
  end.

(** The calls [dispenseRewards] makes once the file is read:
    [B.Airdrop.at(airdrop_addr)], [airdrop.getToken()],
    [B.Simpletoken.at(...)], [TOK.approve(airdrop, sum(values_int), ...)]
    and [airdrop.allocate(tos, values_int, ...)]. *)
Definition calls_of (ch : chain) (airdrop_addr from_account : string)
    (tos : list string) (values_int : list Z) : list call :=
  [AirdropAt airdrop_addr; GetToken airdrop_addr;
   SimpletokenAt (token_of ch airdrop_addr);
   Approve (token_of ch airdrop_addr) airdrop_addr (Zsum values_int)
     from_account;
   Allocate airdrop_addr tos values_int from_account].

Section WithFloat.
Context `{PyFloat}.

(** Modelled from the spec: [toBase18] of [util/base18.py], which is
    missing from the sources: [round(amount * 10^18)], ties to even. *)
Definition toBase18 (x : float) : Z :=
  round_half_even (float_val x * inject_Z (10 ^ 18))%Q.

(** The row [[to_addr, value]] as the writer puts it down. *)
Definition item_row (item : string * float) : row :=
  [item.1; float_str item.2].

(** The loop of [rewardsToCsv] over the items of [rewards]. *)
Definition write_items (path : string) (rewards : dict string float)
    (fs : filesys) : filesys :=
  foldl (λ fs item, writerow path (item_row item) fs) fs rewards.

(** [rewardsToCsv(rewards, csv_dir)]: the outcome and the file system
    it leaves.  The closing [print] is left out. *)
Definition rewardsToCsv (rewards : dict string float) (csv_dir : string)
    (fs : filesys) : result exn () * filesys :=
  let csv_file := rewardsPathToFile csv_dir in
  if path_exists fs csv_file then (Raise AssertionError, fs)
  else
    match open_w fs csv_file with
    | Raise e => (Raise e, fs)
    | Ok fs1 =>
        let fs2 := writerow csv_file ["address"; "value"] fs1 in
        (Ok (), write_items csv_file rewards fs2)
    end.

(** The three lists [csvToRewardsLists] fills. *)
Definition lists : Type := list string * list float * list Z.

(** The loop over [enumerate(reader)], from row number [row_i] on. *)
Fixpoint read_rows (row_i : nat) (rows : list row) (acc : lists)
    : result exn lists :=
  match rows with
  | [] => Ok acc
  | r :: rest =>
      match row_i with
      | O => read_rows 1 rest acc
      | S _ =>
          try to := index r 0 in
          try s := index r 1 in
          try value_float :=
            from_option Ok (Raise ValueError) (float_of_str s) in
          let value_int := toBase18 value_float in
          let '(tos, values_float, values_int) := acc in
          read_rows (S row_i) rest
            (tos ++ [to], values_float ++ [value_float],
             values_int ++ [value_int])
      end
  end.

(** What one pass of the loop body makes of a data row. *)
Definition parse_row (r : row) : result exn (string * float * Z) :=
  try to := index r 0 in
  try s := index r 1 in
  try value_float :=
    from_option Ok (Raise ValueError) (float_of_str s) in
  Ok (to, value_float, toBase18 value_float).

(** [csvToRewardsLists(csv_dir)] *)
Definition csvToRewardsLists (fs : filesys) (csv_dir : string)
    : result exn lists :=
  let csv_file := rewardsPathToFile csv_dir in
  try rows := open_r fs csv_file in
  read_rows 0 rows ([], [], []).

(** [dispenseRewards(csv_dir, airdrop_addr, from_account)]: the outcome
    and the calls made to the chain. *)
Definition dispenseRewards (fs : filesys) (ch : chain)
    (csv_dir airdrop_addr from_account : string)
    : result exn () * list call :=
  match csvToRewardsLists fs csv_dir with
  | Raise e => (Raise e, [])
  | Ok (tos, _, values_int) =>
      let TOK := token_of ch airdrop_addr in
      run ch [AirdropAt airdrop_addr; GetToken airdrop_addr;
              SimpletokenAt TOK;
              Approve TOK airdrop_addr (Zsum values_int) from_account;
              Allocate airdrop_addr tos values_int from_account]
  end.

End WithFloat.

(** A file system for the examples: nothing there yet, everything may be
    created. *)
Definition fs0 : filesys := mkFs ∅ (λ _, true).

(** One with a rewards file that names [0xA] twice. *)
Definition fs_twice : filesys :=
  mkFs {[ "round7/rewards.csv" :=
            File [["address"; "value"]; ["0xA"; "1.5"]; ["0xB"; "4."];
                  ["0xA"; "2.5"]] ]}
       (λ _, true).

(** The rewards of the docstring of [rewardsToCsv]. *)
Definition rewards1 : dict string decimal :=
  [("0x123", dec "123.123"); ("0x456", dec "456.456")].


(** A chain that accepts every call; the airdrop's token is [0xT0K]. *)
Definition chain_ok : chain := mkChain (λ _, "0xT0K") (λ _, true).

(** A file system in which nothing can be created. *)
Definition fs_locked : filesys := mkFs ∅ (λ _, false).



(** The file of [fs_twice] with another header and a third column. *)
Definition fs_wide : filesys :=
  mkFs {[ "round8/rewards.csv" :=
            File [["to"; "amount"; "note"]; ["0xA"; "1.5"; "first"];
                  ["0xB"; "4."; ""]; ["0xA"; "2.5"; "again"; "!"]] ]}
       (λ _, true).

(** A rewards file that holds its header and nothing else. *)
Definition fs_header : filesys :=
  mkFs {[ "round7/rewards.csv" := File [["address"; "value"]] ]} (λ _, true).

(** A chain on which every [approve] reverts. *)
Definition chain_no_approve : chain :=
  mkChain (λ _, "0xT0K")
    (λ c, match c with Approve _ _ _ _ => false | _ => true end).

End Dispense.

(** ** util/test/test_end-to-end.py *)

Module EndToEnd.
Import CalcRewards.

(** How a test ends: its assertion holds, its assertion fails, or something
    raises before the assertion is reached. *)
Inductive outcome : Type :=
  | Passed
  | Failed
  | Errored.

(** What [query_all] hands to the test for one chain:
    [basetoken → pool → LP → amount]. *)
Abbreviation chain_snapshot :=
  (dict string (dict string (dict string Q))) (only parsing).

(** The three nested loops of the test, which add up every stake of the
    chain. *)
Definition total_stakes (S0 : chain_snapshot) : Q :=
  foldl (λ total bp,
    foldl (λ total pl,
      foldl (λ total ax, (total + ax.2)%Q) total pl.2) total bp.2) 0%Q S0.

(** [actual == pytest.approx(expected, rel)]: within the relative
    tolerance, or within the absolute one of [1e-12] where that is wider. *)
Definition approx (expected rel actual : Q) : bool :=
  let tolerance :=
    if Qle_bool (rel * Qabs expected) (1 # 1000000000000) then
      (1 # 1000000000000)%Q
    else (rel * Qabs expected)%Q in
  Qle_bool (Qabs (actual - expected)) tolerance.

(** The rates of [test_without_csvs]. *)
Definition rates : dict string Q :=
  [("OCEAN", 1 # 2); ("H2O", 1618 # 1000)]%Q.

(** [test_without_csvs], from the stakes and volumes the query returned on:
    the budget is [total_stakes * 0.0015717], and the rewards of the chain
    must add up to it within 1%. *)
Definition test_without_csvs (weight : Q → Q → Q → Q) (chainID : Z)
    (S0 V0 : chain_snapshot) : outcome :=
  let stakes := [(chainID, S0)] in
  let poolvols := [(chainID, V0)] in
  let OCEAN_avail := (total_stakes S0 * (15717 # 10000000))%Q in
  match calcRewards weight stakes poolvols rates OCEAN_avail with
  | Raise _ => Errored
  | Ok rewardsperlp =>
      match dict_get chainID rewardsperlp with
      | None => Errored
      | Some d =>
          if approx OCEAN_avail (1 # 100) (Qsum (values d)) then Passed
          else Failed
      end
  end.

(** Stakes and volumes of one chain for the examples. *)
Definition S1 : chain_snapshot :=
  [("OCEAN", [("pool1", [("0xA", 10%Q); ("0xB", 30%Q)]);
              ("pool2", [("0xA", 5%Q)])]);
   ("H2O", [("pool3", [("0xC", 7%Q)])])].

Definition V1 : chain_snapshot :=
  [("OCEAN", [("pool1", [("0xA", 3%Q); ("0xB", 1%Q)]);
              ("pool2", [("0xA", 4%Q)])]);
   ("H2O", [("pool3", [("0xC", 2%Q)])])].

End EndToEnd.

(** * Properties *)

(** ** Block sampling *)

Section BlockRangeFacts.
Import BlockRange.

Lemma new_ok st fin n :
  0 ≤ st → st ≤ fin → 0 ≤ n → new st fin n = Ok (mk st fin n).
Proof.
  intros Hst Hfin Hn. unfold new.
  rewrite bool_decide_eq_false_2 by lia.
  by rewrite bool_decide_eq_false_2 by lia.
Qed.

Lemma randbelow_lt n g : (0 < n)%nat → ((randbelow n g).1 < n)%nat.
Proof. intros Hn. simpl. apply Nat.mod_upper_bound. lia. Qed.

Lemma randbelow_consumed n g :
  consumed (randbelow n g).2 = S (consumed g).
Proof. done. Qed.

(** One step of [choice] on a pool that is not empty. *)
Lemma choice_S k pool g :
  pool ≠ [] →
  ∃ i x, (i < length pool)%nat ∧ pool !! i = Some x ∧
    let r := choice k (delete i pool) (randbelow (length pool) g).2 in
    choice (S k) pool g = (x :: r.1, r.2).
Proof.
  intros Hne. destruct pool as [|y pool']; [done|].
  set (pool := y :: pool').
  pose proof (randbelow_lt (length pool) g ltac:(simpl; lia)) as Hlt.
  set (i := (randbelow (length pool) g).1) in *.
  destruct (lookup_lt_is_Some_2 pool i Hlt) as [x Hx].
  exists i, x. split_and!; [done..|].
  cbn [choice]. fold pool.
  destruct (randbelow (length pool) g) as [i' g1] eqn:Hr.
  subst i. cbn [fst snd] in *. rewrite Hx. cbn [default from_option id].
  by destruct (choice k (delete i' pool) g1).
Qed.

(** What is drawn is part of the pool, counting repetitions. *)
Lemma choice_submseteq k : ∀ pool g, (choice k pool g).1 ⊆+ pool.
Proof.
  induction k as [|k IH]; intros pool g.
  { apply submseteq_nil_l. }
  destruct (decide (pool = [])) as [->|Hne]; [done|].
  destruct (choice_S k pool g Hne) as (i & x & _ & Hx & ->). cbn [fst].
  trans (x :: delete i pool); [apply submseteq_skip, IH|].
  by rewrite <- (delete_Permutation pool i x Hx).
Qed.

(** As many are drawn as asked for, while the pool lasts. *)
Lemma choice_length k : ∀ pool g,
  (k ≤ length pool)%nat → length (choice k pool g).1 = k.
Proof.
  induction k as [|k IH]; intros pool g Hk; [done|].
  destruct (decide (pool = [])) as [->|Hne]; [simpl in Hk; lia|].
  destruct (choice_S k pool g Hne) as (i & x & Hi & Hx & ->). cbn [fst length].
  rewrite IH; [done|]. rewrite length_delete by eauto. lia.
Qed.

(** Each element drawn takes one draw of the source. *)
Lemma choice_consumed k : ∀ pool g,
  (k ≤ length pool)%nat →
  consumed (choice k pool g).2 = (consumed g + k)%nat.
Proof.
  induction k as [|k IH]; intros pool g Hk; [simpl; lia|].
  destruct (decide (pool = [])) as [->|Hne]; [simpl in Hk; lia|].
  destruct (choice_S k pool g Hne) as (i & x & Hi & Hx & ->). cbn [snd].
  rewrite IH, randbelow_consumed; [lia|].
  rewrite length_delete by eauto. lia.
Qed.

Lemma submseteq_NoDup_l {A} (l k : list A) : l ⊆+ k → NoDup k → NoDup l.
Proof.
  intros [k' Hk']%submseteq_Permutation Hnd.
  rewrite Hk' in Hnd. by apply NoDup_app in Hnd as (? & _ & _).
Qed.

Lemma seqZ_interval m n x : x ∈ seqZ m n ↔ m ≤ x < m + n.
Proof. apply elem_of_seqZ. Qed.

Lemma seqZ_ascending m n : StronglySorted Z.lt (seqZ m n).
Proof.
  destruct (decide (0 ≤ n)) as [Hn|Hn].
  - rewrite <- (Z2Nat.id n Hn). generalize (Z.to_nat n) as k. clear.
    intros k. revert m. induction k as [|k IH]; intros m.
    { constructor. }
    rewrite seqZ_cons by lia. constructor.
    + replace (Z.pred (Z.of_nat (S k))) with (Z.of_nat k) by lia. apply IH.
    + apply Forall_forall. intros x Hx%elem_of_seqZ. lia.
  - replace (seqZ m n) with (@nil Z); [constructor|].
    symmetry. apply length_zero_iff_nil. rewrite length_seqZ. lia.
Qed.

(** A list without repetition that ascends weakly ascends strictly. *)
Lemma ascending_strict (l : list Z) :
  StronglySorted Z.le l → NoDup l → StronglySorted Z.lt l.
Proof.
  induction 1 as [|x l Hs IH Hall]; intros Hnd; [constructor|].
  apply NoDup_cons in Hnd as [Hx Hnd]. constructor; [by apply IH|].
  rewrite Forall_forall in Hall. apply Forall_forall. intros y Hy.
  specialize (Hall y Hy). assert (x ≠ y) by (intros ->; done). lia.
Qed.

(** The sampling branch: the sample drawn and what is true of it. *)
Lemma getBlocks_sampled r g :
  num_samples r ≠ 0 → num_samples r < available r →
  getBlocks r g =
    (merge_sort Z.le
       (choice (Z.to_nat (num_samples r)) (seqZ (st r) (available r)) g).1,
     (choice (Z.to_nat (num_samples r)) (seqZ (st r) (available r)) g).2).
Proof.
  intros Hn Hlt. unfold getBlocks.
  rewrite bool_decide_eq_false_2 by done.
  rewrite bool_decide_eq_false_2 by lia.
  by destruct (choice _ _ _).
Qed.

End BlockRangeFacts.

Section BlockRangeClaims.
Import BlockRange.

(** C2. For [0 ≤ st ≤ fin]: when [num_samples] is at least the number of
    blocks available, [getBlocks] returns the whole closed interval, every
    integer from [st] to [fin] in ascending order, and leaves the
    randomness source untouched; for [st = fin] and any
    [num_samples ≥ 1] that is the singleton [[st]]; and for
    [num_samples = 0] the result is empty. *)
Theorem getBlocks_full_interval (st fin n : Z) (g : Rng) :
  0 ≤ st → st ≤ fin →
  (fin - st + 1 ≤ n →
     ∃ bs, sample st fin n g = (Ok bs, g)
       ∧ bs = seqZ st (fin - st + 1)
       ∧ length bs = Z.to_nat (fin - st + 1)
       ∧ (∀ x, x ∈ bs ↔ st ≤ x ≤ fin)
       ∧ StronglySorted Z.lt bs)
  ∧ (st = fin → 1 ≤ n → sample st fin n g = (Ok [st], g))
  ∧ (n = 0 → sample st fin n g = (Ok [], g)).
Proof.
  intros Hst Hfin.
  assert (Hfull : fin - st + 1 ≤ n →
            sample st fin n g = (Ok (seqZ st (fin - st + 1)), g)).
  { intros Hn. unfold sample. rewrite new_ok by lia.
    unfold getBlocks, available. cbn [BlockRange.st BlockRange.fin num_samples].
    rewrite bool_decide_eq_false_2 by lia.
    by rewrite bool_decide_eq_true_2 by lia. }
  split_and!.
  - intros Hn. exists (seqZ st (fin - st + 1)). split_and!.
    + by apply Hfull.
    + done.
    + apply length_seqZ.
    + intros x. rewrite seqZ_interval. lia.
    + apply seqZ_ascending.
  - intros -> Hn. rewrite Hfull by lia.
    by replace (fin - fin + 1) with 1 by lia.
  - intros ->. unfold sample. rewrite new_ok by lia.
    unfold getBlocks. cbn [num_samples].
    by rewrite bool_decide_eq_true_2.
Qed.

Lemma getBlocks_full_interval_witness :
  0 ≤ 10 ∧ 10 ≤ 11 ∧
  (11 - 10 + 1 ≤ 10 →
     ∃ bs, sample 10 11 10 (seeded 1) = (Ok bs, seeded 1)
       ∧ bs = seqZ 10 (11 - 10 + 1)
       ∧ length bs = Z.to_nat (11 - 10 + 1)
       ∧ (∀ x, x ∈ bs ↔ 10 ≤ x ≤ 11)
       ∧ StronglySorted Z.lt bs).
Proof.
  split; [lia|]. split; [lia|].
  apply (getBlocks_full_interval 10 11 10 (seeded 1)); lia.
Defined.

(** C3, as the model has it.  A negative [st], [fin] or [num_samples] is
    an [InvalidArgumentError]; [fin < st] with none of them negative is an
    [InvalidRangeError].  Either way the constructor returns no range, so
    sampling never starts: no draw is taken from the randomness source and
    no list of blocks is returned. *)
Theorem new_rejects_invalid (st fin n : Z) (g : Rng) :
  (st < 0 ∨ fin < 0 ∨ n < 0 →
     new st fin n = Raise InvalidArgumentError
     ∧ sample st fin n g = (Raise InvalidArgumentError, g))
  ∧ (0 ≤ st → 0 ≤ fin → 0 ≤ n → fin < st →
     new st fin n = Raise InvalidRangeError
     ∧ sample st fin n g = (Raise InvalidRangeError, g)).
Proof.
  split.
  - intros Hneg. unfold sample, new.
    by rewrite bool_decide_eq_true_2 by done.
  - intros Hst Hfin Hn Hlt. unfold sample, new.
    rewrite bool_decide_eq_false_2 by lia.
    by rewrite bool_decide_eq_true_2 by done.
Qed.

Lemma new_rejects_invalid_witness :
  (new 1 10 (-5) = Raise InvalidArgumentError
   ∧ sample 1 10 (-5) (seeded 1) = (Raise InvalidArgumentError, seeded 1))
  ∧ (new 20 10 5 = Raise InvalidRangeError
     ∧ sample 20 10 5 (seeded 1) = (Raise InvalidRangeError, seeded 1)).
Proof.
  split.
  - apply (new_rejects_invalid 1 10 (-5) (seeded 1)). right; right; lia.
  - apply (new_rejects_invalid 20 10 5 (seeded 1)); lia.
Defined.

(** C3, as stated, fails: [BlockRange(1, -1, 5)] ends before it starts,
    and what it raises is an [InvalidArgumentError], not an
    [InvalidRangeError]. *)
Lemma new_end_before_start_not_range_error :
  -1 < 1
  ∧ new 1 (-1) 5 = Raise InvalidArgumentError
  ∧ new 1 (-1) 5 ≠ Raise InvalidRangeError.
Proof. split; [lia|]. split; [reflexivity|discriminate]. Qed.

(** C4. For [0 ≤ st ≤ fin] and [0 < num_samples < fin - st + 1], whatever
    the randomness source yields, [getBlocks] returns exactly
    [num_samples] integers, pairwise distinct, each within [[st, fin]], in
    ascending order. *)
Theorem getBlocks_random_sample (st fin n : Z) (g : Rng) :
  0 ≤ st → st ≤ fin → 0 < n → n < fin - st + 1 →
  ∃ bs g', sample st fin n g = (Ok bs, g')
    ∧ length bs = Z.to_nat n
    ∧ NoDup bs
    ∧ (∀ x, x ∈ bs → st ≤ x ≤ fin)
    ∧ StronglySorted Z.le bs
    ∧ StronglySorted Z.lt bs.
Proof.
  intros Hst Hfin Hn Hlt.
  set (pool := seqZ st (fin - st + 1)).
  set (ch := choice (Z.to_nat n) pool g).
  assert (Hsub : ch.1 ⊆+ pool) by apply choice_submseteq.
  assert (Hperm : merge_sort Z.le ch.1 ≡ₚ ch.1) by apply merge_sort_Permutation.
  assert (Hnd : NoDup (merge_sort Z.le ch.1)).
  { rewrite Hperm. eapply submseteq_NoDup_l; [done|]. apply NoDup_seqZ. }
  assert (Hsorted : StronglySorted Z.le (merge_sort Z.le ch.1)).
  { apply StronglySorted_merge_sort; apply _. }
  exists (merge_sort Z.le ch.1), ch.2. split_and!.
  - unfold sample. rewrite new_ok by lia.
    rewrite getBlocks_sampled; unfold available; cbn [BlockRange.st BlockRange.fin num_samples];
      [done|lia|lia].
  - rewrite Hperm. apply choice_length.
    unfold pool. rewrite length_seqZ. lia.
  - done.
  - intros x. rewrite Hperm. intros Hx.
    assert (x ∈ pool) as Hp%seqZ_interval by by eapply elem_of_submseteq.
    lia.
  - done.
  - by apply ascending_strict.
Qed.

Lemma getBlocks_random_sample_witness :
  ∃ bs g', sample 10 20 3 (seeded 4) = (Ok bs, g')
    ∧ length bs = Z.to_nat 3
    ∧ NoDup bs
    ∧ (∀ x, x ∈ bs → 10 ≤ x ≤ 20)
    ∧ StronglySorted Z.le bs
    ∧ StronglySorted Z.lt bs.
Proof. apply (getBlocks_random_sample 10 20 3 (seeded 4)); lia. Defined.

End BlockRangeClaims.

(** The cases of [test_blockrange.py]. *)
Example getBlocks_tests g :
  BlockRange.sample 20 10 5 g = (Raise BlockRange.InvalidRangeError, g)
  ∧ BlockRange.sample (-1) 10 5 g = (Raise BlockRange.InvalidArgumentError, g)
  ∧ BlockRange.sample 1 (-1) 5 g = (Raise BlockRange.InvalidArgumentError, g)
  ∧ BlockRange.sample 1 10 (-5) g = (Raise BlockRange.InvalidArgumentError, g)
  ∧ BlockRange.sample 0 3 10 g = (Ok [0; 1; 2; 3], g)
  ∧ BlockRange.sample 10 20 0 g = (Ok [], g)
  ∧ BlockRange.sample 10 10 1 g = (Ok [10], g)
  ∧ BlockRange.sample 10 10 10 g = (Ok [10], g)
  ∧ BlockRange.sample 10 11 10 g = (Ok [10; 11], g)
  ∧ BlockRange.sample 10 12 10 g = (Ok [10; 11; 12], g)
  ∧ BlockRange.numBlocks (BlockRange.mk 10 20 3) = 3.
Proof. repeat split. Qed.

(** Two seeds, two samples. *)
Example getBlocks_seeded :
  (BlockRange.sample 10 20 3 (BlockRange.seeded 4)).1 = Ok [12; 14; 15]
  ∧ (BlockRange.sample 10 20 3 (BlockRange.seeded 1)).1 = Ok [11; 12; 20]
  ∧ BlockRange.consumed (BlockRange.sample 10 20 3 (BlockRange.seeded 4)).2
    = 3%nat
  ∧ (BlockRange.sample 10 11 1 (BlockRange.seeded 1)).1 = Ok [11]
  ∧ (BlockRange.sample 10 11 1 (BlockRange.seeded 2)).1 = Ok [10].
Proof. repeat split. Qed.

(** ** Reward allocation *)

Section CalcRewardsFacts.
Import CalcRewards.
Local Open Scope Q_scope.

Lemma Qsum_nil : Qsum [] = 0.
Proof. done. Qed.

Lemma Qsum_cons x l : Qsum (x :: l) = x + Qsum l.
Proof. done. Qed.

Lemma values_cons {K V} (k : K) (v : V) (d : dict K V) :
  values ((k, v) :: d) = v :: values d.
Proof. done. Qed.

Lemma total_rewards_nil : total_rewards [] = 0.
Proof. done. Qed.

Lemma total_rewards_cons c d al :
  total_rewards ((c, d) :: al) = Qsum (values d) + total_rewards al.
Proof. done. Qed.

(** Unfold sums over a list, leaving the arithmetic alone. *)
Ltac sum_step :=
  cbn [dict_add alloc_add foldl fmap list_fmap];
  rewrite ?total_rewards_cons, ?total_rewards_nil, ?values_cons,
    ?Qsum_cons, ?Qsum_nil.

(** The same on lists that are given in full. *)
Ltac sum_base :=
  unfold total_rewards, values, Qsum;
  cbn [dict_add alloc_add foldl fmap list_fmap foldr snd]; ring.

Lemma dict_add_sum a x d :
  Qsum (values (dict_add a x d)) == Qsum (values d) + x.
Proof.
  induction d as [|[a' y] d IH]; sum_step.
  - sum_base.
  - destruct (decide (a = a')) as [->|Hne]; sum_step.
    + ring.
    + rewrite IH. ring.
Qed.

Lemma alloc_add_total c a x al :
  total_rewards (alloc_add c a x al) == total_rewards al + x.
Proof.
  induction al as [|[c' d] al IH]; sum_step.
  - sum_base.
  - destruct (decide (c = c')) as [->|Hne]; sum_step.
    + rewrite dict_add_sum. ring.
    + rewrite IH. ring.
Qed.

(** Collapsing pools and base tokens loses nothing: the rewards handed
    out add up to the shares given. *)
Lemma distribute_total (f : entry → Q) es :
  total_rewards (distribute f es) == Qsum (f <$> es).
Proof.
  unfold distribute.
  assert (Hgen : ∀ al,
    total_rewards (foldl (λ al e, alloc_add (chainID e) (LP e) (f e) al) al es)
    == total_rewards al + Qsum (f <$> es)).
  { induction es as [|e es IH]; intros al; sum_step.
    - ring.
    - rewrite IH, alloc_add_total. ring. }
  rewrite Hgen. change (total_rewards []) with 0. ring.
Qed.

Lemma Qsum_shares (budget total : Q) (w : entry → Q) es :
  Qsum ((λ e, budget * w e / total) <$> es)
  == budget * Qsum (w <$> es) / total.
Proof.
  induction es as [|e es IH]; sum_step.
  - unfold Qdiv. ring.
  - rewrite IH. unfold Qdiv. ring.
Qed.




Lemma Qpositive_spec x : Qpositive x = true ↔ 0 < x.
Proof.
  unfold Qpositive. rewrite negb_true_iff. split.
  - intros Hb. apply Qnot_le_lt. intros Hle.
    apply Qle_bool_iff in Hle. congruence.
  - intros Hlt. destruct (Qle_bool x 0) eqn:Hb; [|done].
    apply Qle_bool_iff in Hb. by apply Qlt_not_le in Hlt.
Qed.

Lemma rates_ok_spec rates s :
  rates_ok rates s = true ↔
  Forall (λ e, ∃ r, dict_get (basetoken e) rates = Some r ∧ 0 < r) (entries s).
Proof.
  unfold rates_ok. rewrite forallb_forall, Forall_forall.
  setoid_rewrite <- list_elem_of_In.
  split; intros Hall e He; specialize (Hall e He).
  - destruct (dict_get (basetoken e) rates) as [r|]; [|done].
    exists r. split; [done|]. by apply Qpositive_spec.
  - destruct Hall as (r & -> & Hr). by apply Qpositive_spec.
Qed.

Lemma nonneg_spec (es : list entry) :
  forallb (λ e, Qnonneg (amount e)) es = true ↔
  Forall (λ e, 0 <= amount e) es.
Proof.
  rewrite forallb_forall, Forall_forall.
  setoid_rewrite <- list_elem_of_In.
  split; intros Hall e He; specialize (Hall e He); by apply Qle_bool_iff.
Qed.

(** What the validation of the allocator checks: no negative stake or
    volume, a positive rate for every base token mentioned, and no
    negative budget. *)
Lemma valid_input_spec stakes volumes rates budget :
  valid_input stakes volumes rates budget = true ↔
  Forall (λ e, 0 <= amount e) (entries stakes)
  ∧ Forall (λ e, 0 <= amount e) (entries volumes)
  ∧ Forall (λ e, ∃ r, dict_get (basetoken e) rates = Some r ∧ 0 < r)
      (entries stakes ++ entries volumes)
  ∧ 0 <= budget.
Proof.
  unfold valid_input. rewrite !andb_true_iff, !nonneg_spec, !rates_ok_spec.
  rewrite Forall_app. unfold Qnonneg. rewrite Qle_bool_iff. tauto.
Qed.

End CalcRewardsFacts.

Section CalcRewardsClaims.
Import CalcRewards.
Local Open Scope Q_scope.

Variable weight : Q → Q → Q → Q.

Lemma calcRewards_shares stakes volumes rates budget :
  valid_input stakes volumes rates budget = true →
  ¬ totalWeight weight stakes volumes rates == 0 →
  calcRewards weight stakes volumes rates budget =
    Ok (distribute
          (λ e, budget * weight_of weight volumes rates e
                / totalWeight weight stakes volumes rates)
          (entries stakes)).
Proof.
  intros Hvalid Htotal. unfold calcRewards. rewrite Hvalid. cbn [negb].
  unfold Qzero. destruct (Qeq_bool _ 0) eqn:Hz; [|done].
  by apply Qeq_bool_iff in Hz.
Qed.

(** C1. For every valid input (no negative stake or volume, a positive
    rate for every base token, no negative budget) whose total weight is
    not zero, the rewards [calcRewards] returns, summed over all chains
    and addresses, differ from the budget by at most 1% of the budget. *)
Theorem calcRewards_sum_within_tolerance stakes volumes rates budget :
  Forall (λ e, 0 <= amount e) (entries stakes) →
  Forall (λ e, 0 <= amount e) (entries volumes) →
  Forall (λ e, ∃ r, dict_get (basetoken e) rates = Some r ∧ 0 < r)
    (entries stakes ++ entries volumes) →
  0 <= budget →
  ¬ totalWeight weight stakes volumes rates == 0 →
  ∃ al, calcRewards weight stakes volumes rates budget = Ok al
    ∧ Qabs (total_rewards al - budget) <= (1 # 100) * budget.
Proof.
  intros Hs Hv Hr Hb Htotal.
  assert (Hvalid : valid_input stakes volumes rates budget = true)
    by by apply valid_input_spec.
  eexists. split; [by apply calcRewards_shares|].
  rewrite distribute_total, Qsum_shares. fold (totalWeight weight stakes volumes rates).
  set (total := totalWeight weight stakes volumes rates) in *.
  assert (Heq : budget * total / total - budget == 0) by by field.
  rewrite Heq. change (Qabs 0) with 0.
  apply Qmult_le_0_compat; [done|exact Hb].
Qed.


End CalcRewardsClaims.

Lemma calcRewards_sum_within_tolerance_witness :
  (0 <= 100)%Q ∧
  ∃ al,
    CalcRewards.calcRewards CalcRewards.stake_times_volume CalcRewards.stakes1
      CalcRewards.volumes1 CalcRewards.rates1 100 = Ok al
    ∧ (Qabs (CalcRewards.total_rewards al - 100) <= (1 # 100) * 100)%Q.
Proof.
  destruct (proj1 (valid_input_spec CalcRewards.stakes1 CalcRewards.volumes1
                     CalcRewards.rates1 100) eq_refl) as (Hs & Hv & Hr & Hb).
  split; [exact Hb|].
  apply (calcRewards_sum_within_tolerance CalcRewards.stake_times_volume
           CalcRewards.stakes1 CalcRewards.volumes1 CalcRewards.rates1 100
           Hs Hv Hr Hb).
  vm_compute. discriminate.
Defined.


(** In the example, address [0xA] has weight 25 of 46 on chain 1: two pools
    collapsed into one reward. *)
Example calcRewards_stakes1 :
  ∃ al,
    CalcRewards.calcRewards CalcRewards.stake_times_volume CalcRewards.stakes1
      CalcRewards.volumes1 CalcRewards.rates1 100 = Ok al
    ∧ (default 0 (d ← dict_get 1%Z al; dict_get "0xA" d) == 2500 # 46)%Q
    ∧ (default 0 (d ← dict_get 137%Z al; dict_get "0xA" d) == 600 # 46)%Q.
Proof. eexists. split; [reflexivity|]. split; reflexivity. Qed.

(** ** Rounding to base 18 *)

Section Rounding.
Local Open Scope Q_scope.

(** Rounding moves a number by at most one half. *)
Lemma round_half_even_bound (q : Q) :
  Qabs (inject_Z (round_half_even q) - q) <= 1 # 2.
Proof.
  pose proof (Qfloor_le q) as Hlo. pose proof (Qlt_floor q) as Hhi.
  rewrite inject_Z_plus in Hhi. change (inject_Z 1) with 1 in Hhi.
  apply Qabs_Qle_condition. unfold round_half_even.
  destruct (q - inject_Z (Qfloor q) ?= 1 # 2) eqn:Hc.
  - apply Qeq_alt in Hc.
    destruct (Z.even (Qfloor q));
      rewrite ?inject_Z_plus; change (inject_Z 1) with 1; lra.
  - apply Qlt_alt in Hc. lra.
  - apply Qgt_alt in Hc. rewrite inject_Z_plus. change (inject_Z 1) with 1. lra.
Qed.

(** A tie goes to the even neighbour. *)
Example round_half_even_ties :
  round_half_even (1 # 2) = 0%Z ∧ round_half_even (3 # 2) = 2%Z
  ∧ round_half_even (5 # 2) = 2%Z ∧ round_half_even (- (1 # 2)) = 0%Z
  ∧ round_half_even (7 # 4) = 2%Z ∧ round_half_even (5 # 4) = 1%Z.
Proof. repeat split. Qed.

Context `{PyFloat}.

(** The base-18 amount, read as a number again, is within [10^-18] of the
    amount it came from. *)
Lemma toBase18_bound (x : float) :
  Qabs (inject_Z (Dispense.toBase18 x) / inject_Z (10 ^ 18) - float_val x)
  <= 1 / inject_Z (10 ^ 18).
Proof.
  unfold Dispense.toBase18.
  pose proof (round_half_even_bound (float_val x * inject_Z (10 ^ 18))) as Hb.
  apply Qabs_Qle_condition in Hb. apply Qabs_Qle_condition.
  set (n := inject_Z (round_half_even (float_val x * inject_Z (10 ^ 18)))) in *.
  unfold Qdiv. rewrite Qmult_1_l.
  change (/ inject_Z (10 ^ 18)) with (1 # 1000000000000000000).
  change (inject_Z (10 ^ 18)) with (1000000000000000000 # 1) in *.
  lra.
Qed.

End Rounding.

(** ** Decimal amounts are floats *)

Lemma split_point_uint d b :
  split_point (NilEmpty.string_of_uint d +:+ String "." b)
  = Some (NilEmpty.string_of_uint d, b).
Proof. induction d; simpl; rewrite ?IHd; done. Qed.

Lemma split_point_int i b :
  split_point (NilEmpty.string_of_int i +:+ String "." b)
  = Some (NilEmpty.string_of_int i, b).
Proof.
  destruct i as [d|d]; simpl; [apply split_point_uint|].
  by rewrite split_point_uint.
Qed.

Lemma decimal_of_str_str x : decimal_of_str (decimal_str x) = Some x.
Proof.
  destruct x as [i f]. unfold decimal_of_str, decimal_str. cbn [fst snd].
  change ("." +:+ NilEmpty.string_of_uint f)
    with (String "." (NilEmpty.string_of_uint f)).
  rewrite split_point_int, NilEmpty.isi. cbn.
  by rewrite NilEmpty.usu.
Qed.

Lemma has_cr_app a b : has_cr (a +:+ b) = has_cr a || has_cr b.
Proof.
  induction a as [|c a IH]; [done|].
  simpl. rewrite IH. by rewrite orb_assoc.
Qed.

Lemma has_cr_uint d : has_cr (NilEmpty.string_of_uint d) = false.
Proof. induction d; simpl; done. Qed.

Lemma decimal_str_no_cr x : has_cr (decimal_str x) = false.
Proof.
  destruct x as [[d|d] f]; unfold decimal_str; cbn [fst snd];
    rewrite !has_cr_app; cbn [NilEmpty.string_of_int has_cr];
    by rewrite !has_cr_uint.
Qed.

Definition decimal_float : PyFloat :=
  {| float := decimal;
     float_str := decimal_str;
     float_of_str := decimal_of_str;
     float_val := decimal_val;
     float_of_str_str := decimal_of_str_str;
     float_str_no_cr := decimal_str_no_cr |}.

Example decimal_123_123 :
  decimal_of_str "123.123"
  = Some (Decimal.Pos (Decimal.D1 (Decimal.D2 (Decimal.D3 Decimal.Nil))),
          Decimal.D1 (Decimal.D2 (Decimal.D3 Decimal.Nil)))
  ∧ (option_map decimal_val (decimal_of_str "123.123") = Some (123 + (123 # 1000)))%Q
  ∧ option_map (@Dispense.toBase18 decimal_float) (decimal_of_str "123.123")
    = Some 123123000000000000000
  ∧ decimal_of_str "12a" = None.
Proof. repeat split. Qed.

(** ** Reward files and dispensing *)

Section DispenseFacts.
Import Dispense.
Context `{PyFloat}.

(** One data row: the loop body appends what [parse_row] makes of it. *)
Lemma read_rows_step i r rest tos vf vi :
  read_rows (S i) (r :: rest) (tos, vf, vi) =
    try it := parse_row r in
    read_rows (S (S i)) rest (tos ++ [it.1.1], vf ++ [it.1.2], vi ++ [it.2]).
Proof.
  cbn [read_rows]. unfold parse_row.
  destruct (index r 0) as [to|e]; [|done]. cbn [rbind].
  destruct (index r 1) as [s|e]; [|done]. cbn [rbind].
  by destruct (float_of_str s).
Qed.

(** Past the header the row number plays no part. *)
Lemma read_rows_number i j rows acc :
  read_rows (S i) rows acc = read_rows (S j) rows acc.
Proof.
  revert i j acc. induction rows as [|r rest IH]; intros i j [[tos vf] vi].
  { done. }
  rewrite !read_rows_step. destruct (parse_row r) as [it|e]; [|done].
  cbn [rbind]. apply IH.
Qed.

(** Data rows that all parse are appended to the lists in file order. *)
Lemma read_rows_data i rest items tos vf vi :
  Forall2 (λ r it, parse_row r = Ok it) rest items →
  read_rows (S i) rest (tos, vf, vi) =
    Ok (tos ++ items.*1.*1, vf ++ items.*1.*2, vi ++ items.*2).
Proof.
  intros Hall. revert i tos vf vi.
  induction Hall as [|r it rest items Hr _ IH]; intros i tos vf vi.
  { cbn. by rewrite !app_nil_r. }
  rewrite read_rows_step, Hr. cbn [rbind]. rewrite IH.
  cbn [fmap list_fmap]. by rewrite <- !app_assoc.
Qed.

(** Conversely, when the loop ends without raising every data row
    parsed. *)
Lemma read_rows_inv i rest tos vf vi res :
  read_rows (S i) rest (tos, vf, vi) = Ok res →
  ∃ items, Forall2 (λ r it, parse_row r = Ok it) rest items
    ∧ res = (tos ++ items.*1.*1, vf ++ items.*1.*2, vi ++ items.*2).
Proof.
  revert i tos vf vi. induction rest as [|r rest IH]; intros i tos vf vi.
  { cbn. intros [= <-]. exists []. split; [constructor|].
    cbn. by rewrite !app_nil_r. }
  rewrite read_rows_step. destruct (parse_row r) as [it|e] eqn:Hr; [|done].
  cbn [rbind]. intros (items & Hall & ->)%IH.
  exists (it :: items). split; [by constructor|].
  cbn [fmap list_fmap]. by rewrite <- !app_assoc.
Qed.

(** *** Text without carriage returns is read as written *)



(** *** The file system *)

Lemma writerow_file path r fs rows :
  nodes fs !! path = Some (File rows) →
  writerow path r fs =
    mkFs (<[path := File (rows ++ [r])]> (nodes fs)) (creatable fs).
Proof. intros Hp. unfold writerow. by rewrite Hp. Qed.

Lemma write_items_file path rewards : ∀ fs rows,
  nodes fs !! path = Some (File rows) →
  write_items path rewards fs =
    mkFs (<[path := File (rows ++ (item_row <$> rewards))]> (nodes fs))
         (creatable fs).
Proof.
  unfold write_items.
  induction rewards as [|[a v] rewards IH]; intros fs rows Hp; cbn [foldl].
  - cbn [fmap list_fmap]. rewrite app_nil_r. destruct fs as [m cr].
    cbn in *. by rewrite insert_id.
  - rewrite (writerow_file _ _ _ rows Hp).
    rewrite (IH _ (rows ++ [item_row (a, v)])).
    + cbn [nodes creatable fmap list_fmap].
      by rewrite insert_insert_eq, <- app_assoc.
    + cbn [nodes]. apply lookup_insert_eq.
Qed.

Lemma rewardsToCsv_fresh rewards csv_dir fs :
  path_exists fs (rewardsPathToFile csv_dir) = false →
  creatable fs (rewardsPathToFile csv_dir) = true →
  rewardsToCsv rewards csv_dir fs =
    (Ok (),
     mkFs (<[rewardsPathToFile csv_dir :=
              File (["address"; "value"] :: (item_row <$> rewards))]> (nodes fs))
          (creatable fs)).
Proof.
  intros Hex Hcr. unfold rewardsToCsv. rewrite Hex.
  assert (Hnone : nodes fs !! rewardsPathToFile csv_dir = None).
  { unfold path_exists in Hex. apply bool_decide_eq_false in Hex.
    by apply eq_None_not_Some. }
  unfold open_w. rewrite Hnone, Hcr.
  set (p := rewardsPathToFile csv_dir).
  rewrite (writerow_file p _ _ []) by (cbn; apply lookup_insert_eq).
  cbn [nodes creatable app]. rewrite insert_insert_eq.
  rewrite (write_items_file p rewards _ [["address"; "value"]])
    by (cbn; apply lookup_insert_eq).
  cbn [nodes creatable app]. by rewrite insert_insert_eq.
Qed.



(** *** Contract calls *)

Lemma run_accepted ch cs :
  Forall (λ c, accepts ch c = true) cs → run ch cs = (Ok (), cs).
Proof.
  induction 1 as [|c cs Hc _ IH]; cbn [run]; [done|]. by rewrite Hc, IH.
Qed.

Lemma run_prefix ch cs : (run ch cs).2 `prefix_of` cs.
Proof.
  induction cs as [|c cs IH]; cbn [run].
  - by exists [].
  - destruct (accepts ch c).
    + destruct (run ch cs) as [r tr]. cbn [snd] in *. by apply prefix_cons.
    + exists cs. done.
Qed.

End DispenseFacts.

Section DispenseClaims.
Import Dispense.
Context `{PyFloat}.

(** The lists read from a file whose data rows all parse. *)
Lemma csvToRewardsLists_rows fs csv_dir header data items :
  nodes fs !! rewardsPathToFile csv_dir = Some (File (header :: data)) →
  Forall2 (λ r it, parse_row r = Ok it) (read_text data) items →
  csvToRewardsLists fs csv_dir = Ok (items.*1.*1, items.*1.*2, items.*2).
Proof.
  intros Hfile Hall. unfold csvToRewardsLists, open_r. rewrite Hfile.
  unfold read_text. cbn [rbind read_rows fmap list_fmap].
  by rewrite (read_rows_data _ _ items).
Qed.

(** C6. When the rewards file is already there, [rewardsToCsv] raises (the
    [assert] fails) and leaves the file system, that file included, as it
    was; and whenever it returns normally the path held nothing before. *)
Theorem rewardsToCsv_refuses_existing (rewards : dict string float)
    (csv_dir : string) (fs : filesys) :
  (path_exists fs (rewardsPathToFile csv_dir) = true →
     rewardsToCsv rewards csv_dir fs = (Raise AssertionError, fs))
  ∧ (∀ fs', rewardsToCsv rewards csv_dir fs = (Ok (), fs') →
       nodes fs !! rewardsPathToFile csv_dir = None).
Proof.
  split.
  - intros Hex. unfold rewardsToCsv. by rewrite Hex.
  - intros fs'. unfold rewardsToCsv.
    destruct (path_exists fs _) eqn:Hex; [done|]. intros _.
    unfold path_exists in Hex. apply bool_decide_eq_false in Hex.
    by apply eq_None_not_Some.
Qed.


Lemma dispenseRewards_read fs ch csv_dir airdrop_addr from_account
    tos values_float values_int :
  csvToRewardsLists fs csv_dir = Ok (tos, values_float, values_int) →
  dispenseRewards fs ch csv_dir airdrop_addr from_account
  = run ch (calls_of ch airdrop_addr from_account tos values_int).
Proof. intros Hcsv. unfold dispenseRewards. by rewrite Hcsv. Qed.

(** C8. Whatever the file and whatever the chain answers, the amount
    [dispenseRewards] approves is exactly the sum of the amounts it passes
    to [allocate]; when the file is read and the chain accepts the calls, it
    approves [sum(values_int)] and allocates the same [values_int], to the
    addresses read. *)
Theorem dispenseRewards_approves_sum (fs : filesys) (ch : chain)
    (csv_dir airdrop_addr from_account : string) :
  (∀ tok spender amount from ad tos vals from',
     Approve tok spender amount from
       ∈ (dispenseRewards fs ch csv_dir airdrop_addr from_account).2 →
     Allocate ad tos vals from'
       ∈ (dispenseRewards fs ch csv_dir airdrop_addr from_account).2 →
     amount = Zsum vals)
  ∧ (∀ tos values_float values_int,
       csvToRewardsLists fs csv_dir = Ok (tos, values_float, values_int) →
       (∀ c, accepts ch c = true) →
       dispenseRewards fs ch csv_dir airdrop_addr from_account
       = (Ok (),
          [AirdropAt airdrop_addr; GetToken airdrop_addr;
           SimpletokenAt (token_of ch airdrop_addr);
           Approve (token_of ch airdrop_addr) airdrop_addr (Zsum values_int)
             from_account;
           Allocate airdrop_addr tos values_int from_account])).
Proof.
  split.
  - intros tok spender amount from ad tos vals from'.
    destruct (csvToRewardsLists fs csv_dir) as [[[tos0 vf0] vi0]|e] eqn:Hcsv.
    + rewrite (dispenseRewards_read _ _ _ _ _ _ _ _ Hcsv).
      destruct (run_prefix ch (calls_of ch airdrop_addr from_account tos0 vi0))
        as [rest Hrest].
      intros Hap Hal.
      assert (Hap' : Approve tok spender amount from
                ∈ calls_of ch airdrop_addr from_account tos0 vi0).
      { rewrite Hrest. apply elem_of_app. by left. }
      assert (Hal' : Allocate ad tos vals from'
                ∈ calls_of ch airdrop_addr from_account tos0 vi0).
      { rewrite Hrest. apply elem_of_app. by left. }
      unfold calls_of in Hap', Hal'.
      repeat (apply elem_of_cons in Hap' as [Hap'|Hap']; [try discriminate|]);
        [|by apply elem_of_nil in Hap'].
      repeat (apply elem_of_cons in Hal' as [Hal'|Hal']; [try discriminate|]);
        [|by apply elem_of_nil in Hal'].
      congruence.
    + unfold dispenseRewards. rewrite Hcsv. cbn [snd].
      by intros ?%elem_of_nil.
  - intros tos vf vi Hcsv Hacc.
    rewrite (dispenseRewards_read _ _ _ _ _ _ _ _ Hcsv).
    apply run_accepted, Forall_forall. auto.
Qed.

(** C5, as the code has it.  There is no check for repeated addresses: a
    file whose data rows all parse is read without error even when an
    address is on several rows; every row is returned, in file order, so a
    repeated address is repeated in [tos]; and on a chain that accepts the
    calls [dispenseRewards] approves the sum over all rows and passes the
    repeated address to [allocate]. *)
Theorem dispenseRewards_keeps_repeated_address (fs : filesys) (ch : chain)
    (csv_dir airdrop_addr from_account : string) (header : row)
    (data : list row) (items : list (string * float * Z)) :
  nodes fs !! rewardsPathToFile csv_dir = Some (File (header :: data)) →
  Forall2 (λ r it, parse_row r = Ok it) (read_text data) items →
  ¬ NoDup (items.*1.*1) →
  (∀ c, accepts ch c = true) →
  ∃ tos values_float values_int,
    csvToRewardsLists fs csv_dir = Ok (tos, values_float, values_int)
    ∧ tos = items.*1.*1
    ∧ ¬ NoDup tos
    ∧ values_int = items.*2
    ∧ dispenseRewards fs ch csv_dir airdrop_addr from_account
      = (Ok (),
         [AirdropAt airdrop_addr; GetToken airdrop_addr;
          SimpletokenAt (token_of ch airdrop_addr);
          Approve (token_of ch airdrop_addr) airdrop_addr (Zsum values_int)
            from_account;
          Allocate airdrop_addr tos values_int from_account]).
Proof.
  intros Hfile Hall Hdup Hacc.
  pose proof (csvToRewardsLists_rows _ _ _ _ _ Hfile Hall) as Hcsv.
  eexists _, _, _. split_and!; [exact Hcsv|done..|].
  rewrite (dispenseRewards_read _ _ _ _ _ _ _ _ Hcsv).
  apply run_accepted, Forall_forall. auto.
Qed.

(** C10. [csvToRewardsLists] drops the first row of the file whatever it
    holds: an empty file and a file of one row both give three empty lists;
    for a longer file the outcome is that of the loop over the rows after
    the first, as they are read, in which the first row plays no part, and
    when it is not an error the lists hold one entry for each of those rows
    and none for the first. *)
Theorem csvToRewardsLists_skips_first_row (fs : filesys) (csv_dir : string) :
  (nodes fs !! rewardsPathToFile csv_dir = Some (File []) →
     csvToRewardsLists fs csv_dir = Ok ([], [], []))
  ∧ (∀ first,
       nodes fs !! rewardsPathToFile csv_dir = Some (File [first]) →
       csvToRewardsLists fs csv_dir = Ok ([], [], []))
  ∧ (∀ first rest,
       nodes fs !! rewardsPathToFile csv_dir = Some (File (first :: rest)) →
       csvToRewardsLists fs csv_dir = read_rows 1 (read_text rest) ([], [], [])
       ∧ ∀ tos values_float values_int,
           csvToRewardsLists fs csv_dir = Ok (tos, values_float, values_int) →
           ∃ items,
             Forall2 (λ r it, parse_row r = Ok it) (read_text rest) items
             ∧ tos = items.*1.*1 ∧ values_float = items.*1.*2
             ∧ values_int = items.*2
             ∧ length tos = length rest).
Proof.
  unfold csvToRewardsLists, open_r. split_and!.
  - by intros ->.
  - by intros first ->.
  - intros first rest ->. unfold read_text.
    cbn [rbind read_rows fmap list_fmap]. split; [done|].
    intros tos vf vi (items & Hall & [= -> -> ->])%read_rows_inv.
    exists items. split_and!; [done..|].
    rewrite !length_fmap. symmetry.
    apply Forall2_length in Hall. by rewrite length_fmap in Hall.
Qed.

End DispenseClaims.

(** *** The rewards of the docstring, and a file that repeats an address *)

Lemma rewardsToCsv_refuses_existing_witness :
  Dispense.path_exists Dispense.fs_twice
    (Dispense.rewardsPathToFile "round7") = true
  ∧ @Dispense.rewardsToCsv decimal_float Dispense.rewards1 "round7"
      Dispense.fs_twice
    = (Raise Dispense.AssertionError, Dispense.fs_twice).
Proof.
  split; [reflexivity|].
  apply (@rewardsToCsv_refuses_existing decimal_float Dispense.rewards1
           "round7" Dispense.fs_twice).
  reflexivity.
Defined.



(** What is written for the rewards of the docstring, and what is read
    back. *)
Example rewards1_file :
  (@Dispense.rewardsToCsv decimal_float Dispense.rewards1 "round7/"
     Dispense.fs0).1 = Ok ()
  ∧ Dispense.nodes
      (@Dispense.rewardsToCsv decimal_float Dispense.rewards1 "round7/"
         Dispense.fs0).2 !! "round7/rewards.csv"
    = Some (Dispense.File [["address"; "value"]; ["0x123"; "123.123"];
                           ["0x456"; "456.456"]])
  ∧ @Dispense.csvToRewardsLists decimal_float
      (@Dispense.rewardsToCsv decimal_float Dispense.rewards1 "round7/"
         Dispense.fs0).2 "round7"
    = Ok (["0x123"; "0x456"], [dec "123.123"; dec "456.456"],
          [123123000000000000000; 456456000000000000000]).
Proof. repeat split. Qed.

Lemma dispenseRewards_approves_sum_witness :
  @Dispense.dispenseRewards decimal_float Dispense.fs_twice Dispense.chain_ok
    "round7" "0xA1R" "0xME"
  = (Ok (),
     [Dispense.AirdropAt "0xA1R"; Dispense.GetToken "0xA1R";
      Dispense.SimpletokenAt "0xT0K";
      Dispense.Approve "0xT0K" "0xA1R"
        (Zsum [1500000000000000000; 4000000000000000000;
               2500000000000000000]) "0xME";
      Dispense.Allocate "0xA1R" ["0xA"; "0xB"; "0xA"]
        [1500000000000000000; 4000000000000000000; 2500000000000000000]
        "0xME"]).
Proof.
  apply (proj2 (@dispenseRewards_approves_sum decimal_float Dispense.fs_twice
                  Dispense.chain_ok "round7" "0xA1R" "0xME")
           ["0xA"; "0xB"; "0xA"] [dec "1.5"; dec "4."; dec "2.5"]).
  - reflexivity.
  - intros c. reflexivity.
Defined.

(** C5, as stated, fails: the file names [0xA] twice, and [dispenseRewards]
    raises nothing; it approves the total of the three rows and has
    [allocate] pay [0xA] twice. *)
Lemma dispenseRewards_repeated_address_not_refused :
  ¬ NoDup ["0xA"; "0xB"; "0xA"]
  ∧ @Dispense.csvToRewardsLists decimal_float Dispense.fs_twice "round7"
    = Ok (["0xA"; "0xB"; "0xA"], [dec "1.5"; dec "4."; dec "2.5"],
          [1500000000000000000; 4000000000000000000; 2500000000000000000])
  ∧ @Dispense.dispenseRewards decimal_float Dispense.fs_twice
      Dispense.chain_ok "round7" "0xA1R" "0xME"
    = (Ok (),
       [Dispense.AirdropAt "0xA1R"; Dispense.GetToken "0xA1R";
        Dispense.SimpletokenAt "0xT0K";
        Dispense.Approve "0xT0K" "0xA1R" 8000000000000000000 "0xME";
        Dispense.Allocate "0xA1R" ["0xA"; "0xB"; "0xA"]
          [1500000000000000000; 4000000000000000000; 2500000000000000000]
          "0xME"]).
Proof.
  split; [|split; reflexivity].
  intros [Hnot _]%NoDup_cons. apply Hnot. right. left.
Qed.

Lemma dispenseRewards_keeps_repeated_address_witness :
  ∃ tos values_float values_int,
    @Dispense.csvToRewardsLists decimal_float Dispense.fs_twice "round7"
    = Ok (tos, values_float, values_int)
    ∧ tos = ["0xA"; "0xB"; "0xA"]
    ∧ ¬ NoDup tos
    ∧ values_int
      = [1500000000000000000; 4000000000000000000; 2500000000000000000]
    ∧ @Dispense.dispenseRewards decimal_float Dispense.fs_twice
        Dispense.chain_ok "round7" "0xA1R" "0xME"
      = (Ok (),
         [Dispense.AirdropAt "0xA1R"; Dispense.GetToken "0xA1R";
          Dispense.SimpletokenAt "0xT0K";
          Dispense.Approve "0xT0K" "0xA1R" (Zsum values_int) "0xME";
          Dispense.Allocate "0xA1R" tos values_int "0xME"]).
Proof.
  apply (@dispenseRewards_keeps_repeated_address decimal_float
           Dispense.fs_twice Dispense.chain_ok "round7" "0xA1R" "0xME"
           ["address"; "value"]
           [["0xA"; "1.5"]; ["0xB"; "4."]; ["0xA"; "2.5"]]
           [("0xA", dec "1.5", 1500000000000000000);
            ("0xB", dec "4.", 4000000000000000000);
            ("0xA", dec "2.5", 2500000000000000000)]).
  - reflexivity.
  - repeat constructor.
  - intros [Hnot _]%NoDup_cons. apply Hnot. right. left.
  - intros c. reflexivity.
Defined.

Lemma csvToRewardsLists_skips_first_row_witness :
  @Dispense.csvToRewardsLists decimal_float Dispense.fs_twice "round7"
  = @Dispense.read_rows decimal_float 1
      [["0xA"; "1.5"]; ["0xB"; "4."]; ["0xA"; "2.5"]] ([], [], []).
Proof.
  apply (proj2 (proj2 (@csvToRewardsLists_skips_first_row decimal_float
                         Dispense.fs_twice "round7"))
           ["address"; "value"]
           [["0xA"; "1.5"]; ["0xB"; "4."]; ["0xA"; "2.5"]]).
  reflexivity.
Defined.

(** A file that starts with a data row loses that row; one whose second row
    is short or not a number raises. *)
Example first_data_row_lost :
  let file rows :=
    Dispense.mkFs {[ "rewards.csv" := Dispense.File rows ]} (λ _, true) in
  @Dispense.csvToRewardsLists decimal_float
    (file [["0xA"; "1.5"]; ["0xB"; "4."]]) ""
  = Ok (["0xB"], [dec "4."], [4000000000000000000])
  ∧ @Dispense.csvToRewardsLists decimal_float (file [[]; ["0xB"; "4."]]) ""
    = Ok (["0xB"], [dec "4."], [4000000000000000000])
  ∧ @Dispense.csvToRewardsLists decimal_float
      (file [["address"; "value"]; ["0xB"]]) ""
    = Raise Dispense.IndexError
  ∧ @Dispense.csvToRewardsLists decimal_float
      (file [["address"; "value"]; ["0xB"; "four"]]) ""
    = Raise Dispense.ValueError
  ∧ @Dispense.csvToRewardsLists decimal_float (file []) "" = Ok ([], [], [])
  ∧ @Dispense.csvToRewardsLists decimal_float Dispense.fs0 ""
    = Raise Dispense.FileNotFoundError.
Proof. repeat split. Qed.

(** * Further properties of [util/dispense.py] *)

(** ** The path of the rewards file *)

Lemma append_assoc (a b c : string) : (a +:+ b) +:+ c = a +:+ (b +:+ c).
Proof.
  induction a as [|x a IH]; [done|].
  change (String x ((a +:+ b) +:+ c) = String x (a +:+ (b +:+ c))).
  by rewrite IH.
Qed.

Lemma ends_with_sep_snoc (p : string) :
  Dispense.ends_with_sep (p +:+ "/") = true.
Proof.
  induction p as [|c p IH]; [done|].
  change (String c p +:+ "/") with (String c (p +:+ "/")).
  cbn [Dispense.ends_with_sep].
  destruct (p +:+ "/") eqn:Hp; [by destruct p|done].
Qed.

(** X1. A trailing slash on the directory makes no difference: for a
    directory name that is not empty and does not end in a slash,
    [rewardsPathToFile] gives the name followed by [/rewards.csv], with or
    without a slash appended to the name. *)
Theorem rewardsPathToFile_trailing_slash (path : string) :
  path ≠ "" →
  Dispense.ends_with_sep path = false →
  Dispense.rewardsPathToFile path = path +:+ "/rewards.csv"
  ∧ Dispense.rewardsPathToFile (path +:+ "/") = Dispense.rewardsPathToFile path.
Proof.
  intros Hne Hsep. unfold Dispense.rewardsPathToFile, Dispense.path_join.
  rewrite Hsep, ends_with_sep_snoc, orb_true_r.
  rewrite bool_decide_eq_false_2 by done. cbn [orb].
  split; [done|]. by rewrite append_assoc.
Qed.

Lemma rewardsPathToFile_trailing_slash_witness :
  Dispense.rewardsPathToFile "round7" = "round7/rewards.csv"
  ∧ Dispense.rewardsPathToFile "round7/" = Dispense.rewardsPathToFile "round7".
Proof.
  apply (rewardsPathToFile_trailing_slash "round7"); [discriminate|reflexivity].
Defined.

(** With no directory the file is looked for where the program runs; a
    directory that ends in a slash gets no second one. *)
Example rewardsPathToFile_cases :
  Dispense.rewardsPathToFile "" = "rewards.csv"
  ∧ Dispense.rewardsPathToFile "/" = "/rewards.csv"
  ∧ Dispense.rewardsPathToFile "/tmp/csvs/" = "/tmp/csvs/rewards.csv"
  ∧ Dispense.rewardsPathToFile "/tmp/csvs" = "/tmp/csvs/rewards.csv".
Proof. repeat split. Qed.

(** ** Writing the rewards file *)

Section WritingFurther.
Import Dispense.
Context `{PyFloat}.

Lemma path_exists_false fs path :
  path_exists fs path = false ↔ nodes fs !! path = None.
Proof.
  unfold path_exists. rewrite bool_decide_eq_false.
  split; [by intros ?%eq_None_not_Some|]. intros -> [? [=]].
Qed.


(** X4. The rewards file is written once: after [rewardsToCsv] has returned
    normally, a second call for the same directory, with any rewards, raises
    an [AssertionError] and leaves the file system, and so the file of the
    first call, as it is. *)
Theorem rewardsToCsv_twice (rewards rewards' : dict string float)
    (csv_dir : string) (fs fs' : filesys) :
  rewardsToCsv rewards csv_dir fs = (Ok (), fs') →
  rewardsToCsv rewards' csv_dir fs' = (Raise AssertionError, fs').
Proof.
  intros Hw.
  assert (Hok : (rewardsToCsv rewards csv_dir fs).1 = Ok ()) by by rewrite Hw.
  unfold rewardsToCsv in Hok.
  destruct (path_exists fs (rewardsPathToFile csv_dir)) eqn:Hex; [done|].
  destruct (creatable fs (rewardsPathToFile csv_dir)) eqn:Hcr.
  - rewrite (rewardsToCsv_fresh _ _ _ Hex Hcr) in Hw. injection Hw as <-.
    unfold rewardsToCsv, path_exists. cbn [nodes].
    rewrite lookup_insert_eq. by rewrite bool_decide_eq_true_2 by eauto.
  - unfold open_w in Hok. apply path_exists_false in Hex.
    by rewrite Hex, Hcr in Hok.
Qed.

End WritingFurther.


Lemma rewardsToCsv_twice_witness :
  ∃ fs',
    @Dispense.rewardsToCsv decimal_float Dispense.rewards1 "round7"
      Dispense.fs0 = (Ok (), fs')
    ∧ @Dispense.rewardsToCsv decimal_float [] "round7" fs'
      = (Raise Dispense.AssertionError, fs').
Proof.
  eexists. split; [reflexivity|].
  apply (@rewardsToCsv_twice decimal_float Dispense.rewards1 [] "round7"
           Dispense.fs0).
  reflexivity.
Defined.

(** Where nothing can be created the call raises and writes nothing. *)
Example rewardsToCsv_locked :
  @Dispense.rewardsToCsv decimal_float Dispense.rewards1 "round7"
    Dispense.fs_locked
  = (Raise Dispense.FileNotFoundError, Dispense.fs_locked).
Proof. reflexivity. Qed.

(** ** Reading the rewards file *)

Section ReadingFurther.
Import Dispense.
Context `{PyFloat}.

(** A row parses when it has a second field that reads as a float. *)
Lemma parse_row_ok r a v n :
  parse_row r = Ok (a, v, n) ↔
  r !! 0%nat = Some a
  ∧ (∃ s, r !! 1%nat = Some s ∧ float_of_str s = Some v)
  ∧ n = toBase18 v.
Proof.
  unfold parse_row, index.
  destruct r as [|x [|y r]]; cbn [lookup list_lookup rbind].
  - split; [done|]. by intros [[=] _].
  - split; [done|]. by intros (_ & (s & [=] & _) & _).
  - destruct (float_of_str y) as [w|] eqn:Hy; cbn [from_option rbind].
    + split.
      * intros [= <- <- <-]. eauto.
      * intros ([= <-] & (s & [= <-] & Hs) & ->). congruence.
    + split; [done|]. intros (_ & (s & [= <-] & Hs) & _). congruence.
Qed.




(** The outcome of [csvToRewardsLists] once the file is found: the loop
    over the rows after the first. *)
Lemma csvToRewardsLists_file fs csv_dir rows :
  nodes fs !! rewardsPathToFile csv_dir = Some (File rows) →
  csvToRewardsLists fs csv_dir = read_rows 1 (tail (read_text rows)) ([], [], []).
Proof.
  intros Hfile. unfold csvToRewardsLists, open_r. rewrite Hfile.
  by destruct rows.
Qed.

Lemma read_text_tail rows : tail (read_text rows) = read_text (tail rows).
Proof. by destruct rows. Qed.




(** X6. The three lists [csvToRewardsLists] returns go in step with the
    rows of the file: they have the same length, one entry for every row
    after the first; entry [i] of the addresses is the first field of row
    [i + 1] as read, entry [i] of the values is what [float] makes of its
    second field, and the base-18 amounts are those of the values. *)
Theorem csvToRewardsLists_lockstep (fs : filesys) (csv_dir : string)
    (tos : list string) (values_float : list float) (values_int : list Z) :
  csvToRewardsLists fs csv_dir = Ok (tos, values_float, values_int) →
  length values_float = length tos
  ∧ length values_int = length tos
  ∧ values_int = toBase18 <$> values_float
  ∧ ∃ rows, nodes fs !! rewardsPathToFile csv_dir = Some (File rows)
      ∧ length tos = pred (length rows)
      ∧ ∀ i r, read_text rows !! S i = Some r →
          tos !! i = r !! 0%nat
          ∧ values_float !! i = r !! 1%nat ≫= float_of_str.
Proof.
  intros Hcsv.
  destruct (nodes fs !! rewardsPathToFile csv_dir) as [[rows|]|] eqn:Hfile;
    [|by unfold csvToRewardsLists, open_r in Hcsv; rewrite Hfile in Hcsv..].
  rewrite (csvToRewardsLists_file _ _ _ Hfile) in Hcsv.
  apply read_rows_inv in Hcsv as (items & Hall & [= -> -> ->]).
  assert (Hitems : Forall (λ it, it.2 = toBase18 it.1.2) items).
  { clear -Hall. induction Hall as [|r [[a v] n] ? ? Hr _ IH]; constructor;
      [|done]. by apply parse_row_ok in Hr as (_ & _ & ->). }
  rewrite !length_fmap. split_and!; [done..| |].
  - clear -Hitems. induction Hitems as [|[[a v] n] items Hit _ IH]; [done|].
    cbn [fmap list_fmap fst snd] in *. by rewrite Hit, IH.
  - exists rows. split; [done|]. split.
    { apply Forall2_length in Hall.
      rewrite <- Hall. unfold read_text. destruct rows; [done|].
      cbn [fmap list_fmap tail length]. by rewrite length_fmap. }
    intros i r Hr.
    assert (Hr' : tail (read_text rows) !! i = Some r).
    { destruct (read_text rows); [done|exact Hr]. }
    destruct (Forall2_lookup_l _ _ _ _ _ Hall Hr') as ([[a v] n] & Hit & Hp).
    apply parse_row_ok in Hp as (Ha & (s & Hs & Hv) & ->).
    rewrite !list_lookup_fmap, Hit, Ha, Hs. cbn. by rewrite Hv.
Qed.






Lemma universal_newlines_no_cr_upto (n : nat) : ∀ s,
  (String.length s ≤ n)%nat → has_cr (universal_newlines s) = false.
Proof.
  induction n as [|n IH]; intros s Hlen.
  { destruct s; [done|]. cbn in Hlen. lia. }
  destruct s as [|c s]; [done|]. cbn [String.length] in Hlen.
  cbn [universal_newlines]. destruct (Ascii.eqb c CR) eqn:Hc.
  - destruct s as [|c' s']; [done|]. cbn [String.length] in Hlen.
    destruct (Ascii.eqb c' LF); cbn [has_cr];
      change (Ascii.eqb LF CR) with false; cbn [orb]; apply IH;
      cbn [String.length]; lia.
  - cbn [has_cr]. rewrite Hc. cbn [orb]. apply IH. lia.
Qed.

Lemma universal_newlines_no_cr s : has_cr (universal_newlines s) = false.
Proof. by apply (universal_newlines_no_cr_upto (String.length s)). Qed.

(** X11. No address [csvToRewardsLists] returns holds a carriage return:
    the file is read in text mode, which turns each one into a line feed
    before the rows are taken apart. *)
Theorem csvToRewardsLists_no_carriage_return (fs : filesys)
    (csv_dir : string) (tos : list string) (values_float : list float)
    (values_int : list Z) :
  csvToRewardsLists fs csv_dir = Ok (tos, values_float, values_int) →
  Forall (λ a, has_cr a = false) tos.
Proof.
  intros Hcsv.
  destruct (nodes fs !! rewardsPathToFile csv_dir) as [[rows|]|] eqn:Hfile;
    [|by unfold csvToRewardsLists, open_r in Hcsv; rewrite Hfile in Hcsv..].
  rewrite (csvToRewardsLists_file _ _ _ Hfile) in Hcsv.
  apply read_rows_inv in Hcsv as (items & Hall & [= -> _ _]).
  assert (Hrows : Forall (Forall (λ a, has_cr a = false))
                    (tail (read_text rows))).
  { rewrite read_text_tail. unfold read_text.
    apply Forall_fmap, Forall_forall. intros r _. cbn.
    apply Forall_fmap, Forall_forall. intros a _. cbn.
    apply universal_newlines_no_cr. }
  clear -Hall Hrows. cbn [app].
  induction Hall as [|r [[a v] n] ? ? Hr _ IH]; [constructor|].
  apply Forall_cons in Hrows as [Hr0 Hrows].
  cbn [fmap list_fmap fst]. constructor; [|by apply IH].
  apply parse_row_ok in Hr as (Ha & _ & _).
  rewrite Forall_forall in Hr0. apply Hr0. by eapply list_elem_of_lookup_2.
Qed.

End ReadingFurther.

(** ** Dispensing *)

Section DispensingFurther.
Import Dispense.
Context `{PyFloat}.

Lemma run_raise ch cs e : (run ch cs).1 = Raise e → e = ContractError.
Proof.
  induction cs as [|c cs IH]; cbn [run]; [done|].
  destruct (accepts ch c); [|by intros [= <-]].
  destruct (run ch cs) as [r tr]. exact IH.
Qed.

Lemma run_ok_iff ch cs :
  (run ch cs).1 = Ok () ↔ Forall (λ c, accepts ch c = true) cs.
Proof.
  induction cs as [|c cs IH]; cbn [run].
  - split; [constructor|done].
  - destruct (accepts ch c) eqn:Hc.
    + destruct (run ch cs) as [r tr]. cbn [fst] in *. rewrite IH.
      split; [by constructor|]. by intros [_ ?]%Forall_cons.
    + cbn [fst]. split; [done|]. intros [? _]%Forall_cons. congruence.
Qed.

(** When a run raises, the last call made is the one refused. *)
Lemma run_raise_last ch cs e :
  (run ch cs).1 = Raise e →
  ∃ c, last (run ch cs).2 = Some c ∧ accepts ch c = false.
Proof.
  induction cs as [|c cs IH]; cbn [run]; [done|].
  destruct (accepts ch c) eqn:Hc; [|by exists c].
  destruct (run ch cs) as [r tr]. cbn [fst snd] in *.
  intros (c' & Hlast & Hc')%IH. exists c'. split; [|done].
  destruct tr; [done|]. exact Hlast.
Qed.

(** A call is made only after the calls before it were accepted. *)
Lemma run_accepted_before ch pre c post :
  c ∉ pre → c ∈ (run ch (pre ++ c :: post)).2 →
  Forall (λ c', accepts ch c' = true) pre.
Proof.
  induction pre as [|c0 pre IH]; intros Hnot Hin; [constructor|].
  apply not_elem_of_cons in Hnot as [Hne Hnot].
  cbn [app run] in Hin. destruct (accepts ch c0) eqn:Hc0.
  - destruct (run ch (pre ++ c :: post)) as [r tr]. cbn [snd] in *.
    apply elem_of_cons in Hin as [->|Hin]; [done|].
    constructor; [done|]. by apply IH.
  - cbn [snd] in Hin. apply list_elem_of_singleton in Hin. done.
Qed.

Lemma csvToRewardsLists_lengths fs csv_dir tos vf vi :
  csvToRewardsLists fs csv_dir = Ok (tos, vf, vi) →
  length vf = length tos ∧ length vi = length tos.
Proof.
  intros Hcsv.
  destruct (nodes fs !! rewardsPathToFile csv_dir) as [[rows|]|] eqn:Hfile;
    [|by unfold csvToRewardsLists, open_r in Hcsv; rewrite Hfile in Hcsv..].
  rewrite (csvToRewardsLists_file _ _ _ Hfile) in Hcsv.
  apply read_rows_inv in Hcsv as (items & _ & [= -> -> ->]).
  by rewrite !length_fmap.
Qed.

(** X12. When [dispenseRewards] raises, either the rewards file could not be
    read, the error is that of [csvToRewardsLists] and no call was made to
    the chain; or the file was read, the error is that of a refused call,
    and the refused call is the last one made. *)
Theorem dispenseRewards_failure (fs : filesys) (ch : chain)
    (csv_dir airdrop_addr from_account : string) (e : exn) :
  (dispenseRewards fs ch csv_dir airdrop_addr from_account).1 = Raise e →
  csvToRewardsLists fs csv_dir = Raise e
  ∧ (dispenseRewards fs ch csv_dir airdrop_addr from_account).2 = []
  ∨ e = ContractError
    ∧ (∃ l, csvToRewardsLists fs csv_dir = Ok l)
    ∧ ∃ c, last (dispenseRewards fs ch csv_dir airdrop_addr from_account).2
           = Some c
        ∧ accepts ch c = false.
Proof.
  destruct (csvToRewardsLists fs csv_dir) as [[[tos vf] vi]|e'] eqn:Hcsv.
  - rewrite (dispenseRewards_read _ _ _ _ _ _ _ _ Hcsv). intros Hr. right.
    split; [by eapply run_raise|]. split; [eauto|]. by eapply run_raise_last.
  - unfold dispenseRewards. rewrite Hcsv. cbn [fst snd].
    intros [= ->]. by left.
Qed.

(** X13. [allocate] is called only with what was read and only once the
    approval went through: any call of [allocate] that [dispenseRewards]
    makes is to the airdrop contract, from [from_account], with the
    addresses and the base-18 amounts [csvToRewardsLists] returned, which
    are as many; and the [approve] of their sum was accepted before. *)
Theorem dispenseRewards_allocate_call (fs : filesys) (ch : chain)
    (csv_dir airdrop_addr from_account : string) (airdrop : string)
    (tos : list string) (vals : list Z) (from : string) :
  Allocate airdrop tos vals from
    ∈ (dispenseRewards fs ch csv_dir airdrop_addr from_account).2 →
  airdrop = airdrop_addr ∧ from = from_account
  ∧ (∃ values_float,
       csvToRewardsLists fs csv_dir = Ok (tos, values_float, vals))
  ∧ length tos = length vals
  ∧ accepts ch (Approve (token_of ch airdrop_addr) airdrop_addr (Zsum vals)
                  from_account) = true.
Proof.
  destruct (csvToRewardsLists fs csv_dir) as [[[tos0 vf0] vi0]|e'] eqn:Hcsv;
    last first.
  { unfold dispenseRewards. rewrite Hcsv. by intros ?%elem_of_nil. }
  rewrite (dispenseRewards_read _ _ _ _ _ _ _ _ Hcsv). intros Hin.
  assert (Hin' : Allocate airdrop tos vals from
            ∈ calls_of ch airdrop_addr from_account tos0 vi0).
  { destruct (run_prefix ch (calls_of ch airdrop_addr from_account tos0 vi0))
      as [rest Hrest]. rewrite Hrest. apply elem_of_app. by left. }
  unfold calls_of in Hin'.
  repeat (apply elem_of_cons in Hin' as [Hin'|Hin']; [try discriminate|]);
    [|by apply elem_of_nil in Hin'].
  injection Hin' as -> -> -> ->.
  destruct (csvToRewardsLists_lengths _ _ _ _ _ Hcsv) as [_ Hlen].
  split_and!; [done|done|by eexists|done|].
  apply (run_accepted_before ch
           [AirdropAt airdrop_addr; GetToken airdrop_addr;
            SimpletokenAt (token_of ch airdrop_addr);
            Approve (token_of ch airdrop_addr) airdrop_addr (Zsum vi0)
              from_account]
           (Allocate airdrop_addr tos0 vi0 from_account) []) in Hin.
  - by apply Forall_cons in Hin as (_ & (_ & (_ & (? & _)%Forall_cons)%Forall_cons)%Forall_cons).
  - intros Hmem.
    repeat (apply elem_of_cons in Hmem as [Hmem|Hmem]; [discriminate|]).
    by apply elem_of_nil in Hmem.
Qed.

(** X14. [dispenseRewards] returns normally exactly when the rewards file is
    read and the chain accepts each of the five calls: the lookup of the
    airdrop contract, of its token, of the token contract, the [approve]
    and the [allocate]. *)
Theorem dispenseRewards_succeeds_iff (fs : filesys) (ch : chain)
    (csv_dir airdrop_addr from_account : string) :
  (dispenseRewards fs ch csv_dir airdrop_addr from_account).1 = Ok () ↔
  ∃ tos values_float values_int,
    csvToRewardsLists fs csv_dir = Ok (tos, values_float, values_int)
    ∧ accepts ch (AirdropAt airdrop_addr) = true
    ∧ accepts ch (GetToken airdrop_addr) = true
    ∧ accepts ch (SimpletokenAt (token_of ch airdrop_addr)) = true
    ∧ accepts ch (Approve (token_of ch airdrop_addr) airdrop_addr
                    (Zsum values_int) from_account) = true
    ∧ accepts ch (Allocate airdrop_addr tos values_int from_account) = true.
Proof.
  destruct (csvToRewardsLists fs csv_dir) as [[[tos vf] vi]|e'] eqn:Hcsv.
  - rewrite (dispenseRewards_read _ _ _ _ _ _ _ _ Hcsv), run_ok_iff.
    unfold calls_of. rewrite !Forall_cons. split.
    + intros (? & ? & ? & ? & ? & _). exists tos, vf, vi. done.
    + intros (tos' & vf' & vi' & [= <- <- <-] & ? & ? & ? & ? & ?).
      split_and!; [done..|constructor].
  - unfold dispenseRewards. rewrite Hcsv. cbn [fst]. split; [done|].
    by intros (? & ? & ? & [=] & _).
Qed.


(** X18. A rewards file without data rows still goes to the chain: when the
    file is empty or holds one row only, and the chain accepts the calls,
    [dispenseRewards] approves the amount zero and calls [allocate] with no
    address and no amount. *)
Theorem dispenseRewards_no_data_rows (fs : filesys) (ch : chain)
    (csv_dir airdrop_addr from_account : string) (rows : list row) :
  nodes fs !! rewardsPathToFile csv_dir = Some (File rows) →
  (length rows ≤ 1)%nat →
  (∀ c, accepts ch c = true) →
  dispenseRewards fs ch csv_dir airdrop_addr from_account
  = (Ok (),
     [AirdropAt airdrop_addr; GetToken airdrop_addr;
      SimpletokenAt (token_of ch airdrop_addr);
      Approve (token_of ch airdrop_addr) airdrop_addr 0 from_account;
      Allocate airdrop_addr [] [] from_account]).
Proof.
  intros Hfile Hlen Hacc.
  assert (Hcsv : csvToRewardsLists fs csv_dir = Ok ([], [], [])).
  { rewrite (csvToRewardsLists_file _ _ _ Hfile).
    destruct rows as [|r [|r' rows]]; [done..|]. cbn in Hlen. lia. }
  rewrite (dispenseRewards_read _ _ _ _ _ _ _ _ Hcsv).
  apply run_accepted, Forall_forall. auto.
Qed.

End DispensingFurther.

(** *** On the files of the examples *)


Lemma csvToRewardsLists_lockstep_witness :
  length [dec "1.5"; dec "4."; dec "2.5"] = length ["0xA"; "0xB"; "0xA"]
  ∧ length [1500000000000000000; 4000000000000000000; 2500000000000000000]
    = length ["0xA"; "0xB"; "0xA"]
  ∧ [1500000000000000000; 4000000000000000000; 2500000000000000000]
    = @Dispense.toBase18 decimal_float <$> [dec "1.5"; dec "4."; dec "2.5"]
  ∧ ∃ rows,
      Dispense.nodes Dispense.fs_twice !! Dispense.rewardsPathToFile "round7"
      = Some (Dispense.File rows)
      ∧ length ["0xA"; "0xB"; "0xA"] = pred (length rows)
      ∧ ∀ i r, Dispense.read_text rows !! S i = Some r →
          ["0xA"; "0xB"; "0xA"] !! i = r !! 0%nat
          ∧ [dec "1.5"; dec "4."; dec "2.5"] !! i
            = r !! 1%nat ≫= decimal_of_str.
Proof.
  apply (@csvToRewardsLists_lockstep decimal_float Dispense.fs_twice "round7").
  reflexivity.
Defined.



(** The file with another header and a third column is read as the file
    without. *)
Example csvToRewardsLists_wide :
  @Dispense.csvToRewardsLists decimal_float Dispense.fs_wide "round8"
  = @Dispense.csvToRewardsLists decimal_float Dispense.fs_twice "round7".
Proof. reflexivity. Qed.

Lemma csvToRewardsLists_no_carriage_return_witness :
  Forall (λ a, has_cr a = false) ["0xA"; "0xB"; "0xA"].
Proof.
  apply (@csvToRewardsLists_no_carriage_return decimal_float
           Dispense.fs_twice "round7" ["0xA"; "0xB"; "0xA"]
           [dec "1.5"; dec "4."; dec "2.5"]
           [1500000000000000000; 4000000000000000000; 2500000000000000000]).
  reflexivity.
Defined.

Lemma dispenseRewards_failure_witness :
  ∃ c, last (@Dispense.dispenseRewards decimal_float Dispense.fs_twice
               Dispense.chain_no_approve "round7" "0xA1R" "0xME").2
       = Some c
    ∧ Dispense.accepts Dispense.chain_no_approve c = false.
Proof.
  destruct (@dispenseRewards_failure decimal_float Dispense.fs_twice
              Dispense.chain_no_approve "round7" "0xA1R" "0xME"
              Dispense.ContractError eq_refl)
    as [[Hcsv _]|(_ & _ & Hlast)].
  - discriminate Hcsv.
  - exact Hlast.
Defined.

(** When the approval reverts, [allocate] is not called. *)
Example dispenseRewards_approve_reverts :
  @Dispense.dispenseRewards decimal_float Dispense.fs_twice
    Dispense.chain_no_approve "round7" "0xA1R" "0xME"
  = (Raise Dispense.ContractError,
     [Dispense.AirdropAt "0xA1R"; Dispense.GetToken "0xA1R";
      Dispense.SimpletokenAt "0xT0K";
      Dispense.Approve "0xT0K" "0xA1R" 8000000000000000000 "0xME"]).
Proof. reflexivity. Qed.

Lemma dispenseRewards_allocate_call_witness :
  "0xA1R" = "0xA1R" ∧ "0xME" = "0xME"
  ∧ (∃ values_float,
       @Dispense.csvToRewardsLists decimal_float Dispense.fs_twice "round7"
       = Ok (["0xA"; "0xB"; "0xA"], values_float,
             [1500000000000000000; 4000000000000000000;
              2500000000000000000]))
  ∧ length ["0xA"; "0xB"; "0xA"]
    = length [1500000000000000000; 4000000000000000000; 2500000000000000000]
  ∧ Dispense.accepts Dispense.chain_ok
      (Dispense.Approve (Dispense.token_of Dispense.chain_ok "0xA1R") "0xA1R"
         (Zsum [1500000000000000000; 4000000000000000000;
                2500000000000000000]) "0xME") = true.
Proof.
  apply (@dispenseRewards_allocate_call decimal_float Dispense.fs_twice
           Dispense.chain_ok "round7" "0xA1R" "0xME" "0xA1R"
           ["0xA"; "0xB"; "0xA"]
           [1500000000000000000; 4000000000000000000; 2500000000000000000]
           "0xME").
  apply list_elem_of_In. vm_compute. tauto.
Defined.


(** The amounts of the docstring's rewards, as approved and allocated. *)
Example rewards1_dispensed :
  Zsum (@Dispense.toBase18 decimal_float <$> values Dispense.rewards1)
  = 579579000000000000000
  ∧ @Dispense.toBase18 decimal_float <$> values Dispense.rewards1
    = [123123000000000000000; 456456000000000000000]
  ∧ universal_newlines <$> keys Dispense.rewards1 = ["0x123"; "0x456"].
Proof. repeat split. Qed.

Lemma dispenseRewards_no_data_rows_witness :
  @Dispense.dispenseRewards decimal_float Dispense.fs_header Dispense.chain_ok
    "round7" "0xA1R" "0xME"
  = (Ok (),
     [Dispense.AirdropAt "0xA1R"; Dispense.GetToken "0xA1R";
      Dispense.SimpletokenAt "0xT0K";
      Dispense.Approve "0xT0K" "0xA1R" 0 "0xME";
      Dispense.Allocate "0xA1R" [] [] "0xME"]).
Proof.
  apply (@dispenseRewards_no_data_rows decimal_float Dispense.fs_header
           Dispense.chain_ok "round7" "0xA1R" "0xME" [["address"; "value"]]).
  - reflexivity.
  - cbn. lia.
  - intros c. reflexivity.
Defined.

(** * Further properties of the tests *)

(** ** The sampling loops of [test_blockrange.py] *)

Section SamplingFurther.
Import BlockRange.

(** One sample of a valid range, whichever branch is taken. *)
Lemma sample_valid st fin n g :
  0 ≤ st → st ≤ fin → 0 ≤ n →
  ∃ bs g', sample st fin n g = (Ok bs, g')
    ∧ Z.of_nat (length bs) = Z.min n (fin - st + 1)
    ∧ StronglySorted Z.lt bs
    ∧ ∀ x, x ∈ bs → st ≤ x ≤ fin.
Proof.
  intros Hst Hfin Hn. unfold sample. rewrite new_ok by lia.
  destruct (decide (n = 0)) as [->|Hn0].
  { unfold getBlocks. cbn [num_samples]. rewrite bool_decide_eq_true_2 by done.
    exists [], g. split_and!; [done|cbn; lia|constructor|].
    by intros x ?%elem_of_nil. }
  destruct (decide (fin - st + 1 ≤ n)) as [Hall|Hsome].
  { unfold getBlocks, available.
    cbn [BlockRange.st BlockRange.fin num_samples].
    rewrite bool_decide_eq_false_2 by done.
    rewrite bool_decide_eq_true_2 by done.
    exists (seqZ st (fin - st + 1)), g. split_and!; [done| | |].
    - rewrite length_seqZ. lia.
    - apply seqZ_ascending.
    - intros x Hx%seqZ_interval. lia. }
  rewrite getBlocks_sampled; unfold available;
    cbn [BlockRange.st BlockRange.fin num_samples]; [|done|lia].
  set (pool := seqZ st (fin - st + 1)).
  set (ch := choice (Z.to_nat n) pool g).
  assert (Hsub : ch.1 ⊆+ pool) by apply choice_submseteq.
  assert (Hperm : merge_sort Z.le ch.1 ≡ₚ ch.1)
    by apply merge_sort_Permutation.
  exists (merge_sort Z.le ch.1), ch.2. split_and!; [done| | |].
  - rewrite Hperm. unfold ch. rewrite choice_length.
    + lia.
    + unfold pool. rewrite length_seqZ. lia.
  - apply ascending_strict.
    + apply StronglySorted_merge_sort; apply _.
    + rewrite Hperm. eapply submseteq_NoDup_l; [done|apply NoDup_seqZ].
  - intros x. rewrite Hperm. intros Hx.
    assert (x ∈ pool) as Hp%seqZ_interval by by eapply elem_of_submseteq.
    lia.
Qed.

(** X16. However many samples the tests draw in a row from a valid range,
    and whatever the shared randomness source yields, every one of them is
    a list of [min(num_samples, fin - st + 1)] blocks, in strictly ascending
    order, all within [[st, fin]]. *)
Theorem trials_all_valid (k : nat) (st fin n : Z) (g : Rng) :
  0 ≤ st → st ≤ fin → 0 ≤ n →
  Forall (λ r, ∃ bs, r = Ok bs
            ∧ Z.of_nat (length bs) = Z.min n (fin - st + 1)
            ∧ StronglySorted Z.lt bs
            ∧ ∀ x, x ∈ bs → st ≤ x ≤ fin)
    (trials k st fin n g)
  ∧ length (trials k st fin n g) = k.
Proof.
  intros Hst Hfin Hn. revert g.
  induction k as [|k IH]; intros g; cbn [trials]; [by split|].
  destruct (sample_valid st fin n g Hst Hfin Hn)
    as (bs & g' & -> & Hlen & Hsorted & Hrange).
  destruct (IH g') as [Hall Hk]. split.
  - constructor; [|done]. by exists bs.
  - cbn [length]. by rewrite Hk.
Qed.

Lemma trials_all_valid_witness :
  Forall (λ r, ∃ bs, r = Ok bs
            ∧ Z.of_nat (length bs) = Z.min 3 (20 - 10 + 1)
            ∧ StronglySorted Z.lt bs
            ∧ ∀ x, x ∈ bs → 10 ≤ x ≤ 20)
    (trials 100 10 20 3 (seeded 4))
  ∧ length (trials 100 10 20 3 (seeded 4)) = 100%nat.
Proof. apply (trials_all_valid 100 10 20 3 (seeded 4)); lia. Defined.

End SamplingFurther.

(** The trials differ, the source moving on from one to the next. *)
Example trials_seeded :
  BlockRange.trials 3 10 20 3 (BlockRange.seeded 4)
  = [Ok [12; 14; 15]; Ok [15; 18; 20]; Ok [18; 19; 20]].
Proof. reflexivity. Qed.

(** ** The assertion of [test_without_csvs] *)

Section EndToEndFurther.
Import CalcRewards EndToEnd.
Local Open Scope Q_scope.

Variable weight : Q → Q → Q → Q.

(** The entries of a snapshot of one chain, level by level. *)
Lemma chain_entries_Forall (P : entry → Prop) (c : Z) (S0 : chain_snapshot) :
  Forall P (entries [(c, S0)]) ↔
  Forall (λ bp, Forall (λ pl, Forall (λ ax,
    P (mkEntry c bp.1 pl.1 ax.1 ax.2)) pl.2) bp.2) S0.
Proof.
  unfold entries. rewrite Forall_bind, Forall_singleton. unfold compose at 1.
  rewrite Forall_bind. unfold compose at 1.
  apply Forall_proper; [|done]. intros [b pools]. cbn [fst snd].
  rewrite Forall_bind. unfold compose at 1. apply Forall_proper; [|done].
  intros [p lps]. cbn [fst snd]. rewrite Forall_bind. unfold compose at 1.
  apply Forall_proper; [|done]. intros [a x]. cbn [fst snd].
  by rewrite Forall_singleton.
Qed.

(** Adding up stakes none of which is negative never goes below where it
    started. *)
Lemma total_stakes_from (S0 : chain_snapshot) :
  Forall (λ bp, Forall (λ pl, Forall (λ ax : string * Q, 0 <= ax.2) pl.2)
                  bp.2) S0 →
  ∀ acc, 0 <= acc →
  0 <= foldl (λ total (bp : string * dict string (dict string Q)),
         foldl (λ total (pl : string * dict string Q),
           foldl (λ total (ax : string * Q), total + ax.2) total pl.2)
           total bp.2) acc S0.
Proof.
  induction 1 as [|[b pools] S0 Hpools _ IH]; intros acc Hacc; [done|].
  cbn [foldl snd]. apply IH. clear IH. cbn [snd] in Hpools. revert acc Hacc.
  induction Hpools as [|[p lps] pools Hlps _ IH]; intros acc Hacc; [done|].
  cbn [foldl snd]. apply IH. clear IH. cbn [snd] in Hlps. revert acc Hacc.
  induction Hlps as [|[a x] lps Hx _ IH]; intros acc Hacc; [done|].
  cbn [foldl snd]. apply IH. cbn [snd] in Hx.
  replace 0 with (0 + 0) by done. by apply Qplus_le_compat.
Qed.

Lemma total_stakes_nonneg (c : Z) (S0 : chain_snapshot) :
  Forall (λ e, 0 <= amount e) (entries [(c, S0)]) → 0 <= total_stakes S0.
Proof.
  rewrite chain_entries_Forall. cbn [amount]. intros Hall.
  by apply total_stakes_from.
Qed.

(** The rewards of stakes that are all on one chain sit under that chain. *)
Lemma distribute_one_chain (f : entry → Q) (c : Z) (es : list entry) :
  Forall (λ e, chainID e = c) es → es ≠ [] →
  ∃ d, distribute f es = [(c, d)].
Proof.
  intros Hall Hne. unfold distribute.
  assert (Hgen : ∀ al, (al = [] ∨ ∃ d, al = [(c, d)]) →
    (es = [] ∧ al = [])
    ∨ ∃ d, foldl (λ al e, alloc_add (chainID e) (LP e) (f e) al) al es
           = [(c, d)]).
  { clear Hne. induction Hall as [|e es He _ IH]; intros al Hal.
    - destruct Hal as [->|[d ->]]; [by left|right; by exists d].
    - right. cbn [foldl]. rewrite He.
      assert (∃ d', alloc_add c (LP e) (f e) al = [(c, d')]) as [d' ->].
      { destruct Hal as [->|[d ->]]; cbn [alloc_add]; [by eexists|].
        rewrite decide_True by done. by eexists. }
      destruct (IH [(c, d')]) as [[_ [=]]|Hd]; [|done].
      right. by exists d'. }
  destruct (Hgen [] (or_introl eq_refl)) as [[-> _]|Hd]; done.
Qed.

Lemma approx_equal (expected rel actual : Q) :
  0 <= rel → actual == expected → approx expected rel actual = true.
Proof.
  intros Hrel Heq. unfold approx. apply Qle_bool_iff.
  assert (Hz : actual - expected == 0) by (rewrite Heq; ring).
  rewrite Hz. change (Qabs 0) with 0.
  destruct (Qle_bool (rel * Qabs expected) (1 # 1000000000000)); [done|].
  apply Qmult_le_0_compat; [done|apply Qabs_nonneg].
Qed.

(** X17. [test_without_csvs] passes on any stakes and volumes of the chain
    that have no negative amount, name no base token other than the two the
    test has rates for, and carry some weight: [calcRewards] returns
    rewards for the chain, and they add up to the budget
    [total_stakes * 0.0015717], so the assertion with its tolerance of 1%
    holds. *)
Theorem test_without_csvs_passes (chainID : Z) (S0 V0 : chain_snapshot) :
  Forall (λ e, 0 <= amount e) (entries [(chainID, S0)]) →
  Forall (λ e, 0 <= amount e) (entries [(chainID, V0)]) →
  Forall (λ e, basetoken e = "OCEAN" ∨ basetoken e = "H2O")
    (entries [(chainID, S0)] ++ entries [(chainID, V0)]) →
  ¬ totalWeight weight [(chainID, S0)] [(chainID, V0)] rates == 0 →
  test_without_csvs weight chainID S0 V0 = Passed.
Proof.
  intros Hs Hv Htok Htotal.
  set (budget := total_stakes S0 * (15717 # 10000000)).
  assert (Hb : 0 <= budget).
  { apply Qmult_le_0_compat; [by eapply total_stakes_nonneg|done]. }
  assert (Hvalid : valid_input [(chainID, S0)] [(chainID, V0)] rates budget
                   = true).
  { apply valid_input_spec. split_and!; [done..| |done].
    eapply Forall_impl; [exact Htok|]. intros e [->| ->].
    - by exists (1 # 2).
    - by exists (1618 # 1000). }
  unfold test_without_csvs. fold budget.
  rewrite (calcRewards_shares weight _ _ _ _ Hvalid Htotal).
  set (f := λ e : entry,
         budget * weight_of weight [(chainID, V0)] rates e
         / totalWeight weight [(chainID, S0)] [(chainID, V0)] rates).
  destruct (distribute_one_chain f chainID (entries [(chainID, S0)]))
    as [d Hd].
  { apply chain_entries_Forall.
    repeat (apply Forall_forall; intros ? _). done. }
  { intros Hnil. apply Htotal. unfold totalWeight. by rewrite Hnil. }
  rewrite Hd. cbn [dict_get]. rewrite decide_True by done.
  rewrite approx_equal; [done..|].
  pose proof (distribute_total f (entries [(chainID, S0)])) as Hsum.
  rewrite Hd in Hsum. unfold total_rewards in Hsum.
  cbn [fmap list_fmap snd Qsum foldr] in Hsum.
  assert (Hd' : Qsum (values d) == Qsum (f <$> entries [(chainID, S0)])).
  { rewrite <- Hsum. unfold Qsum. ring. }
  rewrite Hd'. unfold f. rewrite Qsum_shares.
  fold (totalWeight weight [(chainID, S0)] [(chainID, V0)] rates).
  by field.
Qed.

End EndToEndFurther.

Lemma test_without_csvs_passes_witness :
  EndToEnd.test_without_csvs CalcRewards.stake_times_volume 8996
    EndToEnd.S1 EndToEnd.V1 = EndToEnd.Passed.
Proof.
  destruct (proj1 (valid_input_spec [(8996, EndToEnd.S1)]
                     [(8996, EndToEnd.V1)] EndToEnd.rates 0) eq_refl)
    as (Hs & Hv & _ & _).
  apply (test_without_csvs_passes CalcRewards.stake_times_volume 8996
           EndToEnd.S1 EndToEnd.V1 Hs Hv).
  - vm_compute.
    repeat (apply Forall_cons; split;
            [first [left; reflexivity|right; reflexivity]|]).
    apply Forall_nil_2.
  - vm_compute. discriminate.
Defined.
